(** * wetmsm: writing tICA loadings into VMD's [user] field

    A shallow embedding of [wetmsm/vmd_write.py].

    - Python integers used as sizes, loop counters and indices are [nat];
      the entries of the [to2d] dictionary are [Z] because of the [-1]
      sentinel.
    - Dictionaries are stdpp [gmap]s, numpy arrays are lists (a 2-d array is
      a list of rows).
    - Loadings are exact rationals ([Qc]); rounding of binary floating point
      is outside the model.
    - Exceptions are values of [exn]; a computation that may raise returns a
      [result].  Stateful code (the writer object, the reads issued on the
      assignment table, the files written) threads a [heap] through the
      monad [M]. *)

From Stdlib Require Import QArith Qcanon.
From stdpp Require Import base numbers list gmap strings fin_maps.

Local Open Scope nat_scope.

(** ** Exceptions and results *)

Inductive exn : Type :=
  | KeyError (key : string)
  | IndexError
  | TypeError
  | ZeroDivisionError
  | IndexOutOfRange.

Inductive result (A : Type) : Type :=
  | Ok (a : A)
  | Raise (e : exn).
Arguments Ok {A} a.
Arguments Raise {A} e.

Definition rbind {A B} (r : result A) (k : A -> result B) : result B :=
  match r with
  | Ok a => k a
  | Raise e => Raise e
  end.

Definition is_ok {A} (r : result A) : bool :=
  match r with Ok _ => true | Raise _ => false end.

(** [for x in xs: s = body(x, s)] where the body may raise. *)
Fixpoint for_each {A S} (xs : list A) (body : A -> S -> result S) (s : S)
  : result S :=
  match xs with
  | [] => Ok s
  | x :: xs' => rbind (body x s) (for_each xs' body)
  end.

(** [range(n)] *)
Definition range (n : nat) : list nat := seq 0 n.

(** ** Arrays *)

Abbreviation matrix A := (list (list A)).

(** [np.zeros((r, c))] *)
Definition zeros {A} (zero : A) (r c : nat) : matrix A :=
  replicate r (replicate c zero).

(** [m[i, j]] *)
Definition get2d {A} (m : matrix A) (i j : nat) : option A :=
  r ← m !! i; r !! j.

(** [m[i, j] = v]; the callers only write inside the allocated shape. *)
Definition set2d {A} (m : matrix A) (i j : nat) (v : A) : matrix A :=
  alter (fun r => <[j := v]> r) i m.

(** [np.in1d(absi, deleted)] for a scalar [absi]. *)
Definition in1d (absi : nat) (deleted : list nat) : bool :=
  bool_decide (absi ∈ deleted).

(** ** Index translation: the loops of [set_up_translation] and
    [translate_loading] *)

(** Local variables of [set_up_translation]. *)
Record tr_state : Type := TrState {
  tr_to3d : gmap nat (nat * nat);
  tr_to2d : gmap (nat * nat) Z;
  tr_absi : nat;
  tr_pruni : nat
}.

Definition tr_init : tr_state := TrState ∅ ∅ 0 0.

(** Body of the inner loop of [set_up_translation]. *)
Definition tr_body (deleted : list nat) (ute sh : nat) (st : tr_state)
  : tr_state :=
  if negb (in1d (tr_absi st) deleted) then
    TrState (<[tr_pruni st := (ute, sh)]> (tr_to3d st))
            (<[(ute, sh) := Z.of_nat (tr_pruni st)]> (tr_to2d st))
            (tr_absi st + 1)
            (tr_pruni st + 1)
  else
    TrState (tr_to3d st)
            (<[(ute, sh) := (-1)%Z]> (tr_to2d st))
            (tr_absi st + 1)
            (tr_pruni st).

(** [for i in range(n): s = body(i, s)] *)
Definition for_range {S} (n : nat) (body : nat -> S -> S) (s : S) : S :=
  foldl (fun s i => body i s) s (range n).

Definition tr_loop (n_solute n_shells : nat) (deleted : list nat) : tr_state :=
  for_range n_solute
    (fun ute => for_range n_shells (fun sh => tr_body deleted ute sh))
    tr_init.

(** The running kept count when the loops of [set_up_translation] end. *)
Definition kept_count (n_solute n_shells : nat) (deleted : list nat) : nat :=
  tr_pruni (tr_loop n_solute n_shells deleted).

(** Local variables of [translate_loading]. *)
Record tl_state (A : Type) : Type := TlState {
  tl_loading2d : matrix A;
  tl_absi : nat;
  tl_pruni : nat
}.
Arguments TlState {A} _ _ _.
Arguments tl_loading2d {A} _.
Arguments tl_absi {A} _.
Arguments tl_pruni {A} _.

Section TranslateLoading.
Context {A : Type} (zero : A).

(** Body of the inner loop of [translate_loading]; [loading[pruni]]
    raises [IndexError] past the end of [loading]. *)
Definition tl_body (loading : list A) (deleted : list nat) (ute sh : nat)
    (st : tl_state A) : result (tl_state A) :=
  if negb (in1d (tl_absi st) deleted) then
    match loading !! tl_pruni st with
    | Some v =>
        Ok (TlState (set2d (tl_loading2d st) ute sh v)
                    (tl_absi st + 1) (tl_pruni st + 1))
    | None => Raise IndexError
    end
  else
    Ok (TlState (set2d (tl_loading2d st) ute sh zero)
                (tl_absi st + 1) (tl_pruni st)).

Definition tl_loop (n_solute n_shells : nat) (loading : list A)
    (deleted : list nat) : result (tl_state A) :=
  for_each (range n_solute)
    (fun ute => for_each (range n_shells) (tl_body loading deleted ute))
    (TlState (zeros zero n_solute n_shells) 0 0).
End TranslateLoading.

(** ** The heap: the writer object, the table reads, the files *)

(** A row of the assignments table: frame, solvent, solute, shell. *)
Abbreviation row := (nat * nat * nat * nat)%type.

(** Attributes of a [VMDWriter] instance; [to3d] and [to2d] start as
    [None]. *)
Record VMDWriter : Type := MkVMDWriter {
  assn : list row;
  solvent_ind : list nat;
  to3d : option (gmap nat (nat * nat));
  to2d : option (gmap (nat * nat) Z);
  n_frames : nat;
  n_solute : nat;
  n_shells : nat;
  n_atoms : nat;
  which : string
}.

Record heap : Type := Heap {
  writer : VMDWriter;
  reads : list (nat * nat);
  files : gmap string string
}.

Definition M (A : Type) : Type := heap -> result A * heap.

Definition ret {A} (a : A) : M A := fun h => (Ok a, h).

Definition bind {A B} (m : M A) (k : A -> M B) : M B :=
  fun h =>
    match m h with
    | (Ok a, h') => k a h'
    | (Raise e, h') => (Raise e, h')
    end.

Definition raise {A} (e : exn) : M A := fun h => (Raise e, h).

Definition lift {A} (r : result A) : M A := fun h => (r, h).

Notation "'let*' x ':=' m 'in' k" := (bind m (fun x => k))
  (at level 10, x name, m at level 100, k at level 200).
Notation "'run' m 'then' k" := (bind m (fun _ => k))
  (at level 10, m at level 100, k at level 200).

Definition get_self : M VMDWriter := fun h => (Ok (writer h), h).

Definition set_self (w : VMDWriter) : M unit :=
  fun h => (Ok tt, Heap w (reads h) (files h)).

(** [for x in xs: s = body(x, s)] with effects. *)
Fixpoint for_each_M {A S} (xs : list A) (body : A -> S -> M S) (s : S) : M S :=
  match xs with
  | [] => ret s
  | x :: xs' => let* s' := body x s in for_each_M xs' body s'
  end.

(** [assn.read(start, stop)]: the rows [start..stop-1] that exist; the read
    is recorded. *)
Definition read (table : list row) (start stop : nat) : M (list row) :=
  fun h =>
    (Ok (take (stop - start) (drop start table)),
     Heap (writer h) (reads h ++ [(start, stop)]) (files h)).

(** [open(fn, 'w')] creates or truncates the file. *)
Definition open_w (fn : string) : M unit :=
  fun h => (Ok tt, Heap (writer h) (reads h) (<[fn := EmptyString]> (files h))).

(** [f.write(s)] on a file opened by [open_w]. *)
Definition file_write (fn : string) (s : string) : M unit :=
  fun h =>
    (Ok tt,
     Heap (writer h) (reads h)
          (<[fn := (default EmptyString (files h !! fn) +:+ s)%string]>
             (files h))).

(** [a // b] *)
Definition floordiv (a b : nat) : result nat :=
  if decide (b = 0) then Raise ZeroDivisionError else Ok (a / b).

(** ** The chunk kernels

    [_compute] receives its three kernels from the extension module
    [_vmd_write]; a kernel is called as
    [compute_chunk(chunk, solvent_ind, loading2d, user)] and updates [user]
    in place. *)

Abbreviation chunk_fn :=
  (list row -> list nat -> matrix Qc -> matrix Qc -> result (matrix Qc)).

(** The three look-ups made for one row: the global atom of the solvent, the
    loading of the (solute, shell) pair and the present value of the output
    cell. *)
Definition locate (solvent_ind : list nat) (loading2d user : matrix Qc)
    (r : row) : result (nat * nat * Qc * Qc) :=
  let '(fr, vent, ute, sh) := r in
  match solvent_ind !! vent with
  | None => Raise IndexError
  | Some atom =>
      match get2d loading2d ute sh with
      | None => Raise IndexError
      | Some v =>
          match get2d user fr atom with
          | None => Raise IndexOutOfRange
          | Some old => Ok (fr, atom, v, old)
          end
      end
  end.

Definition Qcmax (a b : Qc) : Qc := if Qclt_le_dec a b then b else a.

(** Modelled from the spec: [_compute_chunk_add] of the extension module
    [_vmd_write], which is not part of the sources.  Policy [sum]:
    [output[frame, global_atom] += value] for every row of the chunk; a
    frame or atom outside the output array aborts. *)
Definition chunk_add : chunk_fn :=
  fun chunk solvent_ind loading2d user =>
    for_each chunk
      (fun r user =>
         rbind (locate solvent_ind loading2d user r)
           (fun '(fr, atom, v, old) => Ok (set2d user fr atom (old + v)%Qc)))
      user.

(** Modelled from the spec: [_compute_chunk_max] of the extension module
    [_vmd_write], which is not part of the sources.  Policy [max]:
    [output[frame, global_atom] = max(output[frame, global_atom], value)]. *)
Definition chunk_max : chunk_fn :=
  fun chunk solvent_ind loading2d user =>
    for_each chunk
      (fun r user =>
         rbind (locate solvent_ind loading2d user r)
           (fun '(fr, atom, v, old) => Ok (set2d user fr atom (Qcmax old v))))
      user.

(** The kernel of the [avg] policy, [_compute_chunk_avg], is not modelled.
    What is stated about [_compute] below holds for any three kernels; where
    a closed instance needs three, the [avg] position, which the tags used
    there never select, is filled with [chunk_max]. *)

(** ** [_compute] *)

Section Compute.
Variables _compute_chunk_add _compute_chunk_max _compute_chunk_avg : chunk_fn.

Definition func_map : gmap string chunk_fn :=
  <["add" := _compute_chunk_add]>
    (<["max" := _compute_chunk_max]>
       (<["avg" := _compute_chunk_avg]> ∅)).

Definition _compute (assn : list row) (loading2d : matrix Qc)
    (n_frames n_atoms : nat) (solvent_ind : list nat) (chunksize : nat)
    (which : string) : M (matrix Qc) :=
  let user := zeros 0%Qc n_frames n_atoms in
  match func_map !! which with
  | None => raise (KeyError which)
  | Some compute_chunk =>
      let* q := lift (floordiv (length assn) chunksize) in
      let n_chunks := q + 1 in
      for_each_M (range n_chunks)
        (fun chunk_i user =>
           let* chunk :=
             read assn (chunksize * chunk_i) (chunksize * (chunk_i + 1)) in
           lift (compute_chunk chunk solvent_ind loading2d user))
        user
  end.
End Compute.

(** The default [chunksize=1000000] of [_compute]. *)
Definition default_chunksize : nat := 1000 * 1000.

(** ** [VMDWriter] *)

(** [VMDWriter.__init__] *)
Definition __init__ (assn : list row) (solvent_ind : list nat)
    (n_frames n_atoms n_solute n_shells : nat) : VMDWriter :=
  {| assn := assn; solvent_ind := solvent_ind;
     to3d := None; to2d := None;
     n_frames := n_frames; n_solute := n_solute; n_shells := n_shells;
     n_atoms := n_atoms; which := "add" |}.

(** [VMDWriter.set_up_translation] *)
Definition set_up_translation (deleted : list nat)
  : M (gmap nat (nat * nat) * gmap (nat * nat) Z) :=
  let* self := get_self in
  let st := tr_loop (n_solute self) (n_shells self) deleted in
  run set_self
        {| assn := assn self; solvent_ind := solvent_ind self;
           to3d := Some (tr_to3d st); to2d := Some (tr_to2d st);
           n_frames := n_frames self; n_solute := n_solute self;
           n_shells := n_shells self; n_atoms := n_atoms self;
           which := which self |}
  then ret (tr_to3d st, tr_to2d st).

(** [VMDWriter.translate_loading] *)
Definition translate_loading (loading : list Qc) (deleted : list nat)
  : M (matrix Qc) :=
  let* self := get_self in
  let* st := lift (tl_loop 0%Qc (n_solute self) (n_shells self) loading deleted) in
  ret (tl_loading2d st).

Section Writer.
Variables _compute_chunk_add _compute_chunk_max _compute_chunk_avg : chunk_fn.

(** [VMDWriter.compute] *)
Definition compute (loading : list Qc) (deleted : list nat) : M (matrix Qc) :=
  let* self := get_self in
  let* loading2d := translate_loading loading deleted in
  _compute _compute_chunk_add _compute_chunk_max _compute_chunk_avg
    (assn self) loading2d (n_frames self) (n_atoms self) (solvent_ind self)
    default_chunksize (which self).

(** Number of parameters of [compute] after [self]: [loading], [deleted]. *)
Definition compute_params : nat := 2.

(** A call with [args] positional arguments of a method that takes
    [params]: any other number raises [TypeError] before the body runs. *)
Definition invoke {A} (params args : nat) (body : M A) : M A :=
  if decide (args = params) then body else raise TypeError.

(** Formatting of a value by [str.format], the rendering of the [VMDSCRIPT]
    template and [os.path.basename]. *)
Variable format_value : Qc -> string.
Variable VMDSCRIPT_format : string -> string -> nat -> string -> string.
Variable basename : string -> string.

Definition newline : string := String (Ascii.ascii_of_nat 10) EmptyString.

(** [VMDWriter.write_dat]; the call of [compute] passes three arguments,
    [data], [features_to_select] and [stride]. *)
Definition write_dat (data : list Qc) (features_to_select : list nat)
    (out_fn_base : string) (traj_fn top_fn : option string) (stride : nat)
  : M unit :=
  let dat_out_fn := (out_fn_base +:+ ".dat")%string in
  let tcl_out_fn := (out_fn_base +:+ ".tcl")%string in
  let* self := get_self in
  let* howmany := lift (floordiv (n_frames self) stride) in
  run open_w dat_out_fn then
  let* user := invoke compute_params 3 (compute data features_to_select) in
  run for_each_M user
        (fun urow _ =>
           run for_each_M urow
                 (fun d _ => file_write dat_out_fn (format_value d +:+ " ")%string)
                 tt
           then file_write dat_out_fn newline)
        tt
  then
  match traj_fn, top_fn with
  | Some traj, Some top =>
      run open_w tcl_out_fn then
      file_write tcl_out_fn
        (VMDSCRIPT_format top traj stride (basename dat_out_fn))
  | _, _ => ret tt
  end.
End Writer.

(** ** Vocabulary of the statements *)

(** The (solute, shell) pairs in the order the two nested loops visit
    them; position [s * n_shells + h] holds [(s, h)]. *)
Definition pairs (n_solute n_shells : nat) : list (nat * nat) :=
  flat_map (fun ute => map (pair ute) (range n_shells)) (range n_solute).

(** Number of absolute indices below [i] that were not pruned. *)
Definition rank (deleted : list nat) (i : nat) : nat :=
  length (filter (fun a => a ∉ deleted) (seq 0 i)).

(** The pure part of [translate_loading]. *)
Definition expand (n_solute n_shells : nat) (loading : list Qc)
    (deleted : list nat) : result (matrix Qc) :=
  rbind (tl_loop 0%Qc n_solute n_shells loading deleted)
    (fun st => Ok (tl_loading2d st)).

(** The row range of the [chunk_i]-th read and the rows it returns. *)
Definition chunk_range (chunksize chunk_i : nat) : nat * nat :=
  (chunksize * chunk_i, chunksize * (chunk_i + 1)).

Definition chunk_rows (assn : list row) (chunksize chunk_i : nat) : list row :=
  take (chunksize * (chunk_i + 1) - chunksize * chunk_i)
       (drop (chunksize * chunk_i) assn).

(** The policy tags [_compute] knows. *)
Definition policy_tags : list string := ["add"; "max"; "avg"].

(** The loading values that the rows of the table contribute to the cell
    [(fr, atom)] of the output, in table order. *)
Definition contributions (assn : list row) (solvent_ind : list nat)
    (loading2d : matrix Qc) (fr atom : nat) : list Qc :=
  omap (fun r : row =>
          let '(f, vent, ute, sh) := r in
          if decide (f = fr /\ solvent_ind !! vent = Some atom)
          then get2d loading2d ute sh else None)
       assn.

Definition Qcsum (vs : list Qc) : Qc := foldl Qcplus 0%Qc vs.

(** Arithmetic mean; [0] for no value at all. *)
Definition mean (vs : list Qc) : Qc :=
  if decide (length vs = 0) then 0%Qc
  else (Qcsum vs / Qc_of_Z (Z.of_nat (length vs)))%Qc.

(** Every row addresses a solvent of [solvent_ind], a cell of [loading2d]
    and a cell of the [n_frames] by [n_atoms] output. *)
Definition valid_table (assn : list row) (solvent_ind : list nat)
    (loading2d : matrix Qc) (n_frames n_atoms : nat) : Prop :=
  forall f vent ute sh, (f, vent, ute, sh) ∈ assn ->
    f < n_frames /\
    (exists atom, solvent_ind !! vent = Some atom /\ atom < n_atoms) /\
    is_Some (get2d loading2d ute sh).

(** [user] is the field of per-cell means of the whole table. *)
Definition is_avg_field (assn : list row) (solvent_ind : list nat)
    (loading2d : matrix Qc) (n_frames n_atoms : nat) (user : matrix Qc)
  : Prop :=
  map length user = replicate n_frames n_atoms /\
  forall fr atom, fr < n_frames -> atom < n_atoms ->
    get2d user fr atom
    = Some (mean (contributions assn solvent_ind loading2d fr atom)).

(** What the [avg] policy is claimed to compute, for a kernel [f_avg]:
    whatever the chunk size, the per-cell means of the table. *)
Definition avg_claim (f_avg : chunk_fn) : Prop :=
  forall (f_add f_max : chunk_fn) (assn : list row) (loading2d : matrix Qc)
         (n_frames n_atoms : nat) (solvent_ind : list nat) (chunksize : nat)
         (hp : heap),
    1 <= chunksize ->
    valid_table assn solvent_ind loading2d n_frames n_atoms ->
    exists user,
      (_compute f_add f_max f_avg assn loading2d n_frames n_atoms solvent_ind
         chunksize "avg" hp).1 = Ok user /\
      is_avg_field assn solvent_ind loading2d n_frames n_atoms user.

(** Number of lines of a text: its newline characters. *)
Fixpoint count_lines (s : string) : nat :=
  match s with
  | EmptyString => 0
  | String c s' =>
      (if decide (c = Ascii.ascii_of_nat 10) then 1 else 0) + count_lines s'
  end.

(** Number of iterations that a loop over [xs] starts: all of them, or
    those up to the first that raises. *)
Fixpoint started {A St} (xs : list A) (body : A -> St -> result St) (s : St)
  : nat :=
  match xs with
  | [] => 0
  | x :: xs' =>
      1 + match body x s with Ok s' => started xs' body s' | Raise _ => 0 end
  end.

(** A kernel that treats its chunk row after row: the empty chunk leaves
    the output as it is, and two chunks in a row are handled like their
    concatenation. *)
Definition sequential (kernel : chunk_fn) : Prop :=
  (forall solvent_ind loading2d user,
     kernel [] solvent_ind loading2d user = Ok user) /\
  (forall c1 c2 solvent_ind loading2d user,
     kernel (c1 ++ c2) solvent_ind loading2d user
     = rbind (kernel c1 solvent_ind loading2d user)
         (kernel c2 solvent_ind loading2d)).

(** * Properties *)

(** ** Loops *)

Lemma for_range_S {S} (n : nat) (body : nat -> S -> S) (s : S) :
  for_range (n + 1) body s = body n (for_range n body s).
Proof.
  unfold for_range, range. rewrite seq_app, foldl_app. reflexivity.
Qed.

Lemma pairs_S (n m : nat) :
  pairs (n + 1) m = pairs n m ++ map (pair n) (range m).
Proof.
  unfold pairs, range. rewrite seq_app, flat_map_app. simpl.
  rewrite app_nil_r. reflexivity.
Qed.

Lemma length_pairs (n m : nat) : length (pairs n m) = n * m.
Proof.
  induction n as [|n IH]; [reflexivity|].
  replace (S n) with (n + 1) by lia.
  rewrite pairs_S, length_app, IH, length_map. unfold range.
  rewrite length_seq. lia.
Qed.

Lemma pairs_lookup (n m i s h : nat) :
  pairs n m !! i = Some (s, h) <-> s < n /\ h < m /\ i = s * m + h.
Proof.
  revert i s h. induction n as [|n IH]; intros i s h.
  - split; [intros H; discriminate | lia].
  - replace (S n) with (n + 1) by lia. rewrite pairs_S.
    destruct (decide (i < n * m)) as [Hi|Hi].
    + rewrite lookup_app_l by (rewrite length_pairs; lia).
      rewrite IH. split; [lia|]. intros (Hs & Hh & ->).
      split; [|done]. destruct (decide (s < n)); [done|]. nia.
    + rewrite lookup_app_r by (rewrite length_pairs; lia).
      rewrite length_pairs, list_lookup_fmap. unfold range.
      destruct (decide (i - n * m < m)) as [Hlt|Hge].
      * rewrite lookup_seq_lt by done. simpl. split.
        -- intros [= <- <-]. lia.
        -- intros (Hs & Hh & ->). assert (s = n) as -> by nia.
           do 2 f_equal. lia.
      * rewrite lookup_seq_ge by lia. simpl. split; [done|].
        intros (Hs & Hh & ->). assert (s = n) by nia. subst. lia.
Qed.

Lemma for_range_pairs {S} (n m : nat) (body : nat -> nat -> S -> S) (s : S) :
  for_range n (fun u => for_range m (body u)) s
  = foldl (fun s p => body p.1 p.2 s) s (pairs n m).
Proof.
  induction n as [|n IH]; [reflexivity|].
  replace (Datatypes.S n) with (n + 1) by lia.
  rewrite for_range_S, pairs_S, foldl_app, <- IH.
  unfold for_range at 1. generalize (for_range n (fun u => for_range m (body u)) s).
  generalize (range m). intros l. induction l as [|x l IHl]; intros s0; simpl; [done|].
  apply IHl.
Qed.

Lemma for_each_app {A S} (xs ys : list A) (body : A -> S -> result S) (s : S) :
  for_each (xs ++ ys) body s = rbind (for_each xs body s) (for_each ys body).
Proof.
  revert s. induction xs as [|x xs IH]; intros s; simpl; [done|].
  destruct (body x s); simpl; [apply IH | done].
Qed.

Lemma for_each_pair_row {S} (u : nat) (l : list nat)
    (body : nat -> nat -> S -> result S) (s : S) :
  for_each (map (pair u) l) (fun p => body p.1 p.2) s = for_each l (body u) s.
Proof.
  revert s. induction l as [|x l IHl]; intros s; simpl; [done|].
  destruct (body u x s); simpl; [apply IHl | done].
Qed.

Lemma for_each_pairs {S} (n m : nat) (body : nat -> nat -> S -> result S) (s : S) :
  for_each (range n) (fun u => for_each (range m) (body u)) s
  = for_each (pairs n m) (fun p => body p.1 p.2) s.
Proof.
  induction n as [|n IH]; [reflexivity|].
  replace (Datatypes.S n) with (n + 1) by lia.
  rewrite pairs_S. unfold range at 1. rewrite seq_app.
  rewrite !for_each_app. fold (range n). rewrite IH.
  destruct (for_each (pairs n m) _ s) as [s0|e]; simpl; [|done].
  rewrite for_each_pair_row. destruct (for_each (range m) (body n) s0); done.
Qed.

(** ** Ranks of kept indices *)

Lemma rank_S (deleted : list nat) (i : nat) :
  rank deleted (i + 1)
  = rank deleted i + (if in1d i deleted then 0 else 1).
Proof.
  unfold rank, in1d. rewrite seq_app, filter_app, length_app. simpl.
  rewrite filter_cons, filter_nil.
  destruct (decide (i ∉ deleted)) as [Hn|Hn].
  - rewrite bool_decide_eq_false_2 by done. reflexivity.
  - rewrite bool_decide_eq_true_2; [reflexivity|].
    destruct (decide (i ∈ deleted)); [done|contradiction].
Qed.

Lemma rank_mono (deleted : list nat) (i j : nat) :
  i <= j -> rank deleted i <= rank deleted j.
Proof.
  induction 1 as [|j Hle IH]; [lia|].
  replace (S j) with (j + 1) by lia. rewrite rank_S. lia.
Qed.

Lemma rank_lt (deleted : list nat) (i j : nat) :
  i < j -> in1d i deleted = false -> rank deleted i < rank deleted j.
Proof.
  intros Hlt Hi. pose proof (rank_mono deleted (i + 1) j ltac:(lia)) as Hm.
  rewrite rank_S, Hi in Hm. lia.
Qed.

Lemma rank_le (deleted : list nat) (i : nat) : rank deleted i <= i.
Proof.
  induction i as [|i IH]; [reflexivity|].
  replace (S i) with (i + 1) by lia. rewrite rank_S.
  destruct (in1d i deleted); lia.
Qed.

(** ** The loop of [set_up_translation] *)

Lemma tr_fold_inv (deleted : list nat) (ps : list (nat * nat)) :
  NoDup ps ->
  let st := foldl (fun s p => tr_body deleted p.1 p.2 s) tr_init ps in
  tr_absi st = length ps /\
  tr_pruni st = rank deleted (length ps) /\
  (forall i p, ps !! i = Some p ->
     tr_to2d st !! p
     = Some (if in1d i deleted then (-1)%Z else Z.of_nat (rank deleted i))) /\
  (forall i p, ps !! i = Some p -> in1d i deleted = false ->
     tr_to3d st !! rank deleted i = Some p) /\
  (forall k, rank deleted (length ps) <= k -> tr_to3d st !! k = None).
Proof.
  induction ps as [|q ps IH] using rev_ind; intros Hnd; simpl.
  - repeat split; try done; intros i p Hl; by rewrite lookup_nil in Hl.
  - destruct q as [qu qh]. apply NoDup_app in Hnd as (Hnd & Hq & _).
    destruct (IH Hnd) as (Ha & Hp & H2 & H3 & H4). clear IH.
    rewrite foldl_app. simpl.
    set (st := foldl (fun s p => tr_body deleted p.1 p.2 s) tr_init ps) in *.
    rewrite length_app. simpl. rewrite rank_S.
    assert (Hfresh : forall i p, ps !! i = Some p -> p <> (qu, qh)).
    { intros i p Hl ->. apply (Hq (qu, qh)); [by eapply list_elem_of_lookup_2|].
      apply list_elem_of_singleton. done. }
    unfold tr_body. rewrite Ha.
    destruct (in1d (length ps) deleted) eqn:Hin; simpl.
    + split; [lia|]. split; [lia|]. split; [|split].
      * intros i p Hl. destruct (decide (i < length ps)) as [Hi|Hi].
        -- rewrite lookup_app_l in Hl by done.
           rewrite lookup_insert_ne by (apply not_eq_sym; eauto). eauto.
        -- rewrite lookup_app_r in Hl by lia.
           apply list_lookup_singleton_Some in Hl as [Hz <-].
           assert (i = length ps) as -> by lia.
           rewrite Hin, lookup_insert_eq. done.
      * intros i p Hl Hk. destruct (decide (i < length ps)) as [Hi|Hi].
        -- rewrite lookup_app_l in Hl by done. eauto.
        -- rewrite lookup_app_r in Hl by lia.
           apply list_lookup_singleton_Some in Hl as [Hz <-].
           assert (i = length ps) as -> by lia. congruence.
      * intros k Hk. apply H4. lia.
    + split; [lia|]. split; [lia|]. split; [|split].
      * intros i p Hl. destruct (decide (i < length ps)) as [Hi|Hi].
        -- rewrite lookup_app_l in Hl by done.
           rewrite lookup_insert_ne by (apply not_eq_sym; eauto). eauto.
        -- rewrite lookup_app_r in Hl by lia.
           apply list_lookup_singleton_Some in Hl as [Hz <-].
           assert (i = length ps) as -> by lia.
           rewrite Hin, lookup_insert_eq, Hp. done.
      * intros i p Hl Hk. destruct (decide (i < length ps)) as [Hi|Hi].
        -- rewrite lookup_app_l in Hl by done.
           rewrite lookup_insert_ne; [eauto|].
           rewrite Hp. pose proof (rank_lt deleted i (length ps) Hi Hk). lia.
        -- rewrite lookup_app_r in Hl by lia.
           apply list_lookup_singleton_Some in Hl as [Hz <-].
           assert (i = length ps) as -> by lia.
           rewrite Hp, lookup_insert_eq. done.
      * intros k Hk. rewrite lookup_insert_ne by (rewrite Hp; lia).
        apply H4. lia.
Qed.

Lemma NoDup_pairs (n m : nat) : NoDup (pairs n m).
Proof.
  apply NoDup_alt. intros i j [s h] Hi Hj.
  apply pairs_lookup in Hi as (_ & _ & ->).
  apply pairs_lookup in Hj as (_ & _ & ->). done.
Qed.

Lemma tr_loop_pairs (n m : nat) (deleted : list nat) :
  tr_loop n m deleted
  = foldl (fun s p => tr_body deleted p.1 p.2 s) tr_init (pairs n m).
Proof.
  unfold tr_loop.
  apply (for_range_pairs n m (fun u h => tr_body deleted u h)).
Qed.

Lemma kept_count_rank (n m : nat) (deleted : list nat) :
  kept_count n m deleted = rank deleted (n * m).
Proof.
  unfold kept_count. rewrite tr_loop_pairs.
  destruct (tr_fold_inv deleted (pairs n m) (NoDup_pairs n m)) as (_ & Hp & _).
  rewrite Hp, length_pairs. done.
Qed.

Lemma rank_surj (deleted : list nat) (n k : nat) :
  k < rank deleted n ->
  exists i, i < n /\ in1d i deleted = false /\ rank deleted i = k.
Proof.
  induction n as [|n IH]; [unfold rank; simpl; lia|].
  replace (S n) with (n + 1) by lia. rewrite rank_S. intros Hk.
  destruct (decide (k < rank deleted n)) as [Hlt|Hge].
  - destruct (IH Hlt) as (i & Hi & Hd & Hr). exists i. split; [lia|done].
  - destruct (in1d n deleted) eqn:Hin; [lia|].
    exists n. split; [lia|]. split; [done|lia].
Qed.

Lemma rank_complement (deleted : list nat) (n : nat) :
  rank deleted n + length (filter (fun a => a ∈ deleted) (seq 0 n)) = n.
Proof.
  unfold rank.
  pose proof (filter_app_complement (fun a => a ∈ deleted) (seq 0 n)) as Hperm.
  apply Permutation_length in Hperm.
  rewrite length_app, length_seq in Hperm. lia.
Qed.

Lemma pruned_in_range_count (deleted : list nat) (P : gset nat) (n : nat) :
  (forall a, a ∈ deleted <-> a ∈ P) ->
  (forall a, a ∈ P -> a < n) ->
  length (filter (fun a => a ∈ deleted) (seq 0 n)) = size P.
Proof.
  intros Heq Hrange. unfold size, set_size. simpl.
  apply Permutation_length, NoDup_Permutation.
  - apply NoDup_filter, NoDup_seq.
  - apply NoDup_elements.
  - intros x. rewrite list_elem_of_filter, elem_of_seq, elem_of_elements, Heq.
    split; [tauto|]. intros Hx. specialize (Hrange x Hx). split; [done|lia].
Qed.

(** ** C7 *)

(** C7: for a pruned-index set [P] of absolute indices below
    [n_solute * n_shells], given to the translation build as the array
    [deleted], the final value of the running kept count is
    [n_solute * n_shells - |P|], and the keys of [to3d] are exactly the
    pruned-space indices below it. *)
Theorem kept_count_card (n_solute n_shells : nat) (deleted : list nat)
    (P : gset nat) :
  (forall a, a ∈ deleted <-> a ∈ P) ->
  (forall a, a ∈ P -> a < n_solute * n_shells) ->
  kept_count n_solute n_shells deleted = n_solute * n_shells - size P /\
  (forall k, is_Some (tr_to3d (tr_loop n_solute n_shells deleted) !! k)
             <-> k < kept_count n_solute n_shells deleted).
Proof.
  intros Heq Hrange. split.
  - rewrite kept_count_rank.
    pose proof (rank_complement deleted (n_solute * n_shells)) as Hc.
    rewrite (pruned_in_range_count deleted P _ Heq Hrange) in Hc. lia.
  - intros k. rewrite kept_count_rank, tr_loop_pairs.
    destruct (tr_fold_inv deleted _ (NoDup_pairs n_solute n_shells))
      as (_ & _ & _ & H3 & H4).
    rewrite length_pairs in H4. split.
    + intros [p Hk]. destruct (decide (k < rank deleted (n_solute * n_shells)));
        [done|]. rewrite H4 in Hk by lia. discriminate.
    + intros Hk. destruct (rank_surj _ _ _ Hk) as (i & Hi & Hd & <-).
      destruct (lookup_lt_is_Some_2 (pairs n_solute n_shells) i) as [p Hp];
        [by rewrite length_pairs|].
      exists p. eapply H3; eauto.
Qed.

Lemma kept_count_card_witness :
  kept_count 2 2 [1] = 2 * 2 - size ({[1]} : gset nat) /\
  (forall k, is_Some (tr_to3d (tr_loop 2 2 [1]) !! k)
             <-> k < kept_count 2 2 [1]).
Proof.
  apply (kept_count_card 2 2 [1] {[1]}).
  - intros a. rewrite list_elem_of_singleton, elem_of_singleton. done.
  - intros a Ha. apply elem_of_singleton in Ha. subst. simpl. lia.
Defined.

(** ** C3 *)

(** C3: after [set_up_translation], for every pair [(s, h)] of the
    dimensions, a pair whose absolute index [s * n_shells + h] was not
    pruned is sent by [to2d] to a pruned index that [to3d] sends back to
    [(s, h)], and [to2d] holds the sentinel [-1] exactly at the pairs whose
    absolute index was pruned; both dictionaries are stored in the writer. *)
Theorem set_up_translation_inverse (hp : heap) (deleted : list nat)
    (s h : nat) :
  s < n_solute (writer hp) -> h < n_shells (writer hp) ->
  exists t3 t2 hp',
    set_up_translation deleted hp = (Ok (t3, t2), hp') /\
    to3d (writer hp') = Some t3 /\ to2d (writer hp') = Some t2 /\
    (s * n_shells (writer hp) + h ∉ deleted ->
       exists k, t2 !! (s, h) = Some (Z.of_nat k) /\ t3 !! k = Some (s, h)) /\
    (t2 !! (s, h) = Some (-1)%Z <-> s * n_shells (writer hp) + h ∈ deleted).
Proof.
  intros Hs Hh. unfold set_up_translation, bind, get_self, set_self, ret.
  simpl. do 3 eexists. split; [reflexivity|]. simpl.
  split; [reflexivity|]. split; [reflexivity|].
  set (n := n_solute (writer hp)) in *. set (m := n_shells (writer hp)) in *.
  rewrite tr_loop_pairs.
  destruct (tr_fold_inv deleted _ (NoDup_pairs n m)) as (_ & _ & H2 & H3 & _).
  assert (Hl : pairs n m !! (s * m + h) = Some (s, h))
    by (apply pairs_lookup; done).
  specialize (H2 _ _ Hl). specialize (H3 _ _ Hl). unfold in1d in *.
  split.
  - intros Hn. rewrite bool_decide_eq_false_2 in H2, H3 by done.
    eexists. split; [exact H2 | by apply H3].
  - rewrite H2. case_bool_decide; split; try done.
    intros [= Hk]. lia.
Qed.

Lemma set_up_translation_inverse_witness :
  exists t3 t2 hp',
    set_up_translation [1] (Heap (__init__ [] [] 0 0 2 2) [] ∅)
      = (Ok (t3, t2), hp') /\
    to3d (writer hp') = Some t3 /\ to2d (writer hp') = Some t2 /\
    (1 * 2 + 0 ∉ [1] ->
       exists k, t2 !! (1, 0) = Some (Z.of_nat k) /\ t3 !! k = Some (1, 0)) /\
    (t2 !! (1, 0) = Some (-1)%Z <-> 1 * 2 + 0 ∈ [1]).
Proof.
  apply (set_up_translation_inverse (Heap (__init__ [] [] 0 0 2 2) [] ∅) [1] 1 0);
    simpl; lia.
Defined.

(** ** Two-dimensional arrays *)

Section Arrays.
Context {A : Type}.
Implicit Types (m : matrix A) (v : A).

Lemma get2d_set2d_eq m i j v :
  is_Some (get2d m i j) -> get2d (set2d m i j v) i j = Some v.
Proof.
  unfold get2d, set2d. rewrite list_lookup_alter_eq.
  destruct (m !! i) as [r|]; simpl; [|by intros [? ?]].
  intros Hj. apply list_lookup_insert_eq, lookup_lt_is_Some. done.
Qed.

Lemma get2d_set2d_ne m i j i' j' v :
  (i, j) <> (i', j') -> get2d (set2d m i j v) i' j' = get2d m i' j'.
Proof.
  intros Hne. unfold get2d, set2d.
  destruct (decide (i = i')) as [<-|Hi].
  - rewrite list_lookup_alter_eq. destruct (m !! i) as [r|]; simpl; [|done].
    apply list_lookup_insert_ne. congruence.
  - rewrite list_lookup_alter_ne by done. done.
Qed.

Lemma get2d_zeros (zero : A) (r c i j : nat) :
  i < r -> j < c -> get2d (zeros zero r c) i j = Some zero.
Proof.
  intros Hi Hj. unfold get2d, zeros. rewrite lookup_replicate_2 by done.
  simpl. apply lookup_replicate_2. done.
Qed.
End Arrays.

(** ** The loop of [translate_loading] *)

Section TranslateLoadingFacts.
Context {A : Type} (zero : A).

Lemma tl_fold_inv (loading : list A) (deleted : list nat)
    (ps : list (nat * nat)) (m0 : matrix A) :
  NoDup ps ->
  (forall p, p ∈ ps -> is_Some (get2d m0 p.1 p.2)) ->
  let r := for_each ps (fun p => tl_body zero loading deleted p.1 p.2)
             (TlState m0 0 0) in
  if decide (rank deleted (length ps) <= length loading) then
    exists st, r = Ok st /\
      tl_absi st = length ps /\
      tl_pruni st = rank deleted (length ps) /\
      (forall i p, ps !! i = Some p ->
         get2d (tl_loading2d st) p.1 p.2
         = if in1d i deleted then Some zero else loading !! rank deleted i) /\
      (forall p, p ∉ ps ->
         get2d (tl_loading2d st) p.1 p.2 = get2d m0 p.1 p.2)
  else r = Raise IndexError.
Proof.
  induction ps as [|q ps IH] using rev_ind; intros Hnd Hin r; subst r.
  - rewrite decide_True by (unfold rank; simpl; lia).
    eexists. split; [reflexivity|]. simpl. repeat split; try done.
  - destruct q as [qu qh]. apply NoDup_app in Hnd as (Hnd & Hq & _).
    assert (Hqps : (qu, qh) ∉ ps).
    { intros Hel. apply (Hq _ Hel), list_elem_of_singleton. done. }
    specialize (IH Hnd). cbv zeta in IH. rewrite for_each_app.
    rewrite length_app. simpl length. rewrite rank_S.
    destruct (decide (rank deleted (length ps) <= length loading))
      as [Hle|Hgt].
    + destruct IH as (st & -> & Ha & Hp & Hcells & Hrest).
      { intros p Hp. apply Hin, elem_of_app. by left. }
      simpl. unfold tl_body. rewrite !Ha, !Hp.
      assert (Hsome : is_Some (get2d (tl_loading2d st) qu qh)).
      { pose proof (Hrest (qu, qh) Hqps) as Hr. simpl in Hr. rewrite Hr.
        apply (Hin (qu, qh)), elem_of_app.
        right. apply list_elem_of_singleton. done. }
      assert (Hkeep : forall i p, ps !! i = Some p -> (qu, qh) <> (p.1, p.2)).
      { intros i [pu ph] Hl [= -> ->]. apply Hqps.
        by eapply list_elem_of_lookup_2. }
      destruct (in1d (length ps) deleted) eqn:Hd; simpl.
      * rewrite decide_True by lia. eexists. split; [reflexivity|]. simpl.
        split; [lia|]. split; [lia|]. split.
        -- intros i p Hl. destruct (decide (i < length ps)) as [Hi|Hi].
           ++ rewrite lookup_app_l in Hl by done.
              rewrite get2d_set2d_ne by eauto. eauto.
           ++ rewrite lookup_app_r in Hl by lia.
              apply list_lookup_singleton_Some in Hl as [Hz <-].
              assert (i = length ps) as -> by lia. rewrite Hd.
              apply get2d_set2d_eq. done.
        -- intros [pu ph] Hp'. rewrite not_elem_of_app in Hp'.
           destruct Hp' as [Hp1 Hp2]. rewrite list_elem_of_singleton in Hp2.
           simpl. rewrite get2d_set2d_ne by congruence. apply (Hrest _ Hp1).
      * destruct (loading !! rank deleted (length ps)) as [v|] eqn:Hv.
        -- apply lookup_lt_Some in Hv as Hlt.
           rewrite decide_True by lia. eexists. split; [reflexivity|]. simpl.
           split; [lia|]. split; [lia|]. split.
           ++ intros i p Hl. destruct (decide (i < length ps)) as [Hi|Hi].
              ** rewrite lookup_app_l in Hl by done.
                 rewrite get2d_set2d_ne by eauto. eauto.
              ** rewrite lookup_app_r in Hl by lia.
                 apply list_lookup_singleton_Some in Hl as [Hz <-].
                 assert (i = length ps) as -> by lia. rewrite Hd, Hv.
                 apply get2d_set2d_eq. done.
           ++ intros [pu ph] Hp'. rewrite not_elem_of_app in Hp'.
              destruct Hp' as [Hp1 Hp2]. rewrite list_elem_of_singleton in Hp2.
              simpl. rewrite get2d_set2d_ne by congruence. apply (Hrest _ Hp1).
        -- apply lookup_ge_None in Hv. rewrite decide_False by lia. done.
    + rewrite IH.
      * rewrite decide_False by lia. done.
      * intros p Hp. apply Hin, elem_of_app. by left.
Qed.

Lemma tl_loop_spec (n m : nat) (loading : list A) (deleted : list nat) :
  if decide (kept_count n m deleted <= length loading) then
    exists st, tl_loop zero n m loading deleted = Ok st /\
      forall s h, s < n -> h < m ->
        get2d (tl_loading2d st) s h
        = if in1d (s * m + h) deleted then Some zero
          else loading !! rank deleted (s * m + h)
  else tl_loop zero n m loading deleted = Raise IndexError.
Proof.
  unfold tl_loop.
  rewrite (for_each_pairs n m (fun u h => tl_body zero loading deleted u h)).
  pose proof (tl_fold_inv loading deleted (pairs n m) (zeros zero n m)
                (NoDup_pairs n m)) as Hinv.
  cbv zeta in Hinv. rewrite length_pairs, <- kept_count_rank in Hinv.
  destruct (decide (kept_count n m deleted <= length loading)).
  - destruct Hinv as (st & Hst & _ & _ & Hcells & _).
    + intros [u h] Hp. apply list_elem_of_lookup in Hp as [i Hi].
      apply pairs_lookup in Hi as (Hu & Hh & _). simpl.
      rewrite get2d_zeros by done. done.
    + exists st. split; [done|]. intros s h Hs Hh.
      apply (Hcells (s * m + h) (s, h)), pairs_lookup. done.
  - apply Hinv. intros [u h] Hp. apply list_elem_of_lookup in Hp as [i Hi].
    apply pairs_lookup in Hi as (Hu & Hh & _). simpl.
    rewrite get2d_zeros by done. done.
Qed.
End TranslateLoadingFacts.

Lemma set2d_shape {A} (m : matrix A) (i j : nat) (v : A) :
  map length (set2d m i j v) = map length m.
Proof.
  unfold set2d. revert i. induction m as [|r m IH]; intros [|i]; simpl; try done.
  - by rewrite length_insert.
  - f_equal. apply IH.
Qed.

Lemma tl_fold_shape {A} (zero : A) (loading : list A) (deleted : list nat)
    (ps : list (nat * nat)) (st st' : tl_state A) :
  for_each ps (fun p => tl_body zero loading deleted p.1 p.2) st = Ok st' ->
  map length (tl_loading2d st') = map length (tl_loading2d st).
Proof.
  revert st. induction ps as [|[u h] ps IH]; intros st; simpl.
  - by intros [= ->].
  - unfold tl_body at 1.
    destruct (negb (in1d (tl_absi st) deleted));
      [destruct (loading !! tl_pruni st); [|done]|];
      simpl; intros Hr; rewrite (IH _ Hr); simpl; apply set2d_shape.
Qed.

Lemma zeros_shape {A} (zero : A) (r c : nat) :
  map length (zeros zero r c) = replicate r c.
Proof.
  unfold zeros. induction r as [|r IH]; simpl; [done|].
  by rewrite length_replicate, IH.
Qed.

Lemma translate_loading_expand (hp : heap) (loading : list Qc)
    (deleted : list nat) :
  translate_loading loading deleted hp
  = (expand (n_solute (writer hp)) (n_shells (writer hp)) loading deleted, hp).
Proof.
  unfold translate_loading, expand, bind, get_self, lift, ret. simpl.
  destruct (tl_loop _ _ _ _ _); reflexivity.
Qed.

(** ** C4 *)

(** C4: when [loading] has an entry for every kept pair,
    [translate_loading] returns an [n_solute] by [n_shells] matrix in which
    the pair [(s, h)] holds [loading[k]], [k] being the number of kept
    absolute indices below [s * n_shells + h], if its absolute index was not
    pruned, and [0] if it was; the writer, the table and the files are left
    alone.  With two solutes, two shells, pruned set [{1}] and loading
    [1, 2, 3] the matrix is [[1, 0], [2, 3]]. *)
Theorem translate_loading_layout :
  (forall (hp : heap) (loading : list Qc) (deleted : list nat),
     let ns := n_solute (writer hp) in
     let nh := n_shells (writer hp) in
     kept_count ns nh deleted <= length loading ->
     exists m, translate_loading loading deleted hp = (Ok m, hp) /\
       map length m = replicate ns nh /\
       forall s h, s < ns -> h < nh ->
         if in1d (s * nh + h) deleted then get2d m s h = Some 0%Qc
         else exists v, loading !! rank deleted (s * nh + h) = Some v /\
                        get2d m s h = Some v) /\
  (forall hp : heap,
     n_solute (writer hp) = 2 -> n_shells (writer hp) = 2 ->
     translate_loading [Qc_of_Z 1; Qc_of_Z 2; Qc_of_Z 3] [1] hp
     = (Ok [[Qc_of_Z 1; 0%Qc]; [Qc_of_Z 2; Qc_of_Z 3]], hp)).
Proof.
  split.
  - intros hp loading deleted ns nh Hlen. rewrite translate_loading_expand.
    fold ns nh. unfold expand.
    pose proof (tl_loop_spec 0%Qc ns nh loading deleted) as Hspec.
    rewrite decide_True in Hspec by done.
    destruct Hspec as (st & Hst & Hcells). rewrite Hst. simpl.
    exists (tl_loading2d st). split; [done|]. split.
    + unfold tl_loop in Hst.
      rewrite (for_each_pairs ns nh
                 (fun u h => tl_body 0%Qc loading deleted u h)) in Hst.
      apply tl_fold_shape in Hst. rewrite Hst. simpl. apply zeros_shape.
    + intros s h Hs Hh. specialize (Hcells s h Hs Hh).
      destruct (in1d (s * nh + h) deleted) eqn:Hd; [done|].
      assert (Hlt : rank deleted (s * nh + h) < length loading).
      { rewrite kept_count_rank in Hlen.
        assert (s * nh + h < ns * nh) as Hin by nia.
        pose proof (rank_lt deleted _ _ Hin Hd). lia. }
      apply lookup_lt_is_Some_2 in Hlt as [v Hv]. exists v.
      split; [done|congruence].
  - intros hp Hs Hh. rewrite translate_loading_expand, Hs, Hh. reflexivity.
Qed.

Lemma translate_loading_layout_witness :
  let hp := Heap (__init__ [] [] 0 0 2 2) [] ∅ in
  let loading := [Qc_of_Z 1; Qc_of_Z 2; Qc_of_Z 3] in
  exists m, translate_loading loading [1] hp = (Ok m, hp) /\
    map length m = replicate 2 2 /\
    forall s h, s < 2 -> h < 2 ->
      if in1d (s * 2 + h) [1] then get2d m s h = Some 0%Qc
      else exists v, loading !! rank [1] (s * 2 + h) = Some v /\
                     get2d m s h = Some v.
Proof.
  intros hp loading.
  apply (proj1 translate_loading_layout hp loading [1]).
  vm_compute. lia.
Defined.

(** ** C5 *)




(** ** [_compute] *)

Section ComputeFacts.
Variables f_add f_max f_avg : chunk_fn.

Lemma func_map_lookup (which : string) :
  func_map f_add f_max f_avg !! which
  = if decide (which = "add") then Some f_add
    else if decide (which = "max") then Some f_max
    else if decide (which = "avg") then Some f_avg
    else None.
Proof.
  unfold func_map. rewrite !lookup_insert, lookup_empty.
  repeat case_decide; congruence.
Qed.

Lemma func_map_None (which : string) :
  func_map f_add f_max f_avg !! which = None <-> which ∉ policy_tags.
Proof.
  rewrite func_map_lookup. unfold policy_tags.
  rewrite !not_elem_of_cons. repeat case_decide; split; try done.
  all: try (intros (Ha & Hm & Hv & _); congruence).
  intros _. repeat split; try done. apply not_elem_of_nil.
Qed.

Lemma chunk_loop (kernel : chunk_fn) (assn : list row)
    (solvent_ind : list nat) (loading2d : matrix Qc) (chunksize : nat)
    (chunk_is : list nat) (user : matrix Qc) (hp : heap) :
  let step chunk_i user :=
    kernel (chunk_rows assn chunksize chunk_i) solvent_ind loading2d user in
  for_each_M chunk_is
    (fun chunk_i user =>
       let* chunk := read assn (chunksize * chunk_i) (chunksize * (chunk_i + 1)) in
       lift (kernel chunk solvent_ind loading2d user))
    user hp
  = (for_each chunk_is step user,
     Heap (writer hp)
          (reads hp
           ++ map (chunk_range chunksize)
                (take (started chunk_is step user) chunk_is))
          (files hp)).
Proof.
  intros step. revert user hp.
  induction chunk_is as [|i chunk_is IH]; intros user hp; simpl.
  - unfold ret. rewrite app_nil_r. by destruct hp.
  - unfold bind at 1. unfold read at 1. unfold bind at 1. unfold lift at 1.
    fold (chunk_rows assn chunksize i). fold (step i user).
    destruct (step i user) as [user'|e]; simpl.
    + rewrite IH. simpl. rewrite <- app_assoc. reflexivity.
    + reflexivity.
Qed.

Lemma compute_unfold (kernel : chunk_fn) (assn : list row)
    (loading2d : matrix Qc) (n_frames n_atoms : nat) (solvent_ind : list nat)
    (chunksize : nat) (which : string) (hp : heap) :
  func_map f_add f_max f_avg !! which = Some kernel ->
  chunksize <> 0 ->
  let step chunk_i user :=
    kernel (chunk_rows assn chunksize chunk_i) solvent_ind loading2d user in
  let chunk_is := range (length assn / chunksize + 1) in
  let user0 := zeros 0%Qc n_frames n_atoms in
  _compute f_add f_max f_avg assn loading2d n_frames n_atoms solvent_ind
    chunksize which hp
  = (for_each chunk_is step user0,
     Heap (writer hp)
          (reads hp
           ++ map (chunk_range chunksize)
                (take (started chunk_is step user0) chunk_is))
          (files hp)).
Proof.
  intros Hk Hcs step chunk_is user0. unfold _compute. rewrite Hk.
  unfold bind at 1, lift at 1, floordiv. rewrite decide_False by done.
  apply chunk_loop.
Qed.

Lemma compute_KeyError (assn : list row) (loading2d : matrix Qc)
    (n_frames n_atoms : nat) (solvent_ind : list nat) (chunksize : nat)
    (which : string) (hp : heap) :
  which ∉ policy_tags ->
  _compute f_add f_max f_avg assn loading2d n_frames n_atoms solvent_ind
    chunksize which hp
  = (Raise (KeyError which), hp).
Proof.
  intros Hw. apply func_map_None in Hw. unfold _compute. rewrite Hw. done.
Qed.

Lemma compute_frame (assn : list row) (loading2d : matrix Qc)
    (n_frames n_atoms : nat) (solvent_ind : list nat) (chunksize : nat)
    (which : string) (hp : heap) :
  let hp' := (_compute f_add f_max f_avg assn loading2d n_frames n_atoms
                solvent_ind chunksize which hp).2 in
  writer hp' = writer hp /\ files hp' = files hp.
Proof.
  destruct (func_map f_add f_max f_avg !! which) as [kernel|] eqn:Hk.
  - destruct (decide (chunksize = 0)) as [->|Hcs].
    + unfold _compute. rewrite Hk. done.
    + rewrite (compute_unfold kernel) by done. done.
  - unfold _compute. rewrite Hk. done.
Qed.
End ComputeFacts.

Lemma started_all {A S} (xs : list A) (body : A -> S -> result S) (s s' : S) :
  for_each xs body s = Ok s' -> started xs body s = length xs.
Proof.
  revert s. induction xs as [|x xs IH]; intros s; simpl; [done|].
  destruct (body x s) as [s1|e]; simpl; [|done].
  intros Hr. by rewrite (IH _ Hr).
Qed.

(** ** C6 *)

(** C6, as stated, fails: the tag [sum] is refused with a [KeyError], and
    the tag [add], which is outside the claimed set, is accepted and runs
    the sum kernel. *)
Lemma sum_tag_rejected :
  let assn := [(0, 0, 0, 0); (0, 0, 0, 0)] in
  let hp := Heap (__init__ assn [0] 1 1 1 1) [] ∅ in
  let outcome which :=
    _compute chunk_add chunk_max chunk_max assn [[Qc_of_Z 1]] 1 1 [0]
      2 which hp in
  "sum" ∈ ["sum"; "max"; "avg"] /\
  outcome "sum" = (Raise (KeyError "sum"), hp) /\
  ("add" ∉ ["sum"; "max"; "avg"]) /\
  (outcome "add").1 = chunk_add assn [0] [[Qc_of_Z 1]] (zeros 0%Qc 1 1) /\
  (outcome "add").1 <> (outcome "max").1.
Proof.
  split; [|split; [|split; [|split]]].
  - apply list_elem_of_here.
  - reflexivity.
  - rewrite !not_elem_of_cons. repeat split; try done. apply not_elem_of_nil.
  - reflexivity.
  - vm_compute. intros Heq. discriminate Heq.
Qed.

Lemma compute_first_read (f_add f_max f_avg kernel : chunk_fn)
    (assn : list row) (loading2d : matrix Qc) (n_frames n_atoms : nat)
    (solvent_ind : list nat) (chunksize : nat) (which : string) (hp : heap) :
  func_map f_add f_max f_avg !! which = Some kernel ->
  chunksize <> 0 ->
  exists rest,
    reads (_compute f_add f_max f_avg assn loading2d n_frames n_atoms
             solvent_ind chunksize which hp).2
    = reads hp ++ (0, chunksize) :: rest.
Proof.
  intros Hk Hcs. rewrite (compute_unfold _ _ _ kernel) by done.
  simpl. replace (length assn / chunksize + 1)
    with (S (length assn / chunksize)) by lia.
  unfold range. simpl. unfold chunk_range at 1.
  replace (chunksize * 0) with 0 by lia.
  replace (chunksize * (0 + 1)) with chunksize by lia.
  eexists. reflexivity.
Qed.

(** C6, amended: the tags of [_compute] are [add], [max] and [avg].  Any
    other tag makes it raise [KeyError] with no read issued and nothing else
    changed.  The tag [add] selects the sum kernel [_compute_chunk_add],
    [max] selects [_compute_chunk_max] and [avg] selects
    [_compute_chunk_avg]; what [_compute] returns is that kernel run over
    the chunks in turn, and (the chunk size not being zero) the first range
    of rows is read. *)
Theorem unknown_policy_KeyError (f_add f_max f_avg : chunk_fn)
    (assn : list row) (loading2d : matrix Qc) (n_frames n_atoms : nat)
    (solvent_ind : list nat) (chunksize : nat) (which : string) (hp : heap) :
  let outcome :=
    _compute f_add f_max f_avg assn loading2d n_frames n_atoms solvent_ind
      chunksize which hp in
  (which ∉ policy_tags -> outcome = (Raise (KeyError which), hp)) /\
  (which ∈ policy_tags -> chunksize <> 0 ->
   exists kernel rest,
     (which = "add" /\ kernel = f_add \/
      which = "max" /\ kernel = f_max \/
      which = "avg" /\ kernel = f_avg) /\
     func_map f_add f_max f_avg !! which = Some kernel /\
     outcome.1
     = for_each (range (length assn / chunksize + 1))
         (fun chunk_i user =>
            kernel (chunk_rows assn chunksize chunk_i) solvent_ind loading2d
              user)
         (zeros 0%Qc n_frames n_atoms) /\
     reads outcome.2 = reads hp ++ (0, chunksize) :: rest).
Proof.
  intros outcome. split.
  - apply compute_KeyError.
  - intros Hin Hcs.
    assert (Hsel : exists kernel,
               (which = "add" /\ kernel = f_add \/
                which = "max" /\ kernel = f_max \/
                which = "avg" /\ kernel = f_avg) /\
               func_map f_add f_max f_avg !! which = Some kernel).
    { unfold policy_tags in Hin. rewrite !elem_of_cons in Hin.
      destruct Hin as [->|[->|[->|Hin]]].
      - exists f_add. split; [by left|reflexivity].
      - exists f_max. split; [by right; left|reflexivity].
      - exists f_avg. split; [by right; right|reflexivity].
      - by apply elem_of_nil in Hin. }
    destruct Hsel as (kernel & Hsel & Hk).
    destruct (compute_first_read f_add f_max f_avg kernel assn loading2d
                n_frames n_atoms solvent_ind chunksize which hp Hk Hcs)
      as [rest Hrest].
    exists kernel, rest. split; [done|]. split; [done|]. split; [|done].
    unfold outcome. rewrite (compute_unfold _ _ _ kernel) by done. done.
Qed.

Lemma unknown_policy_KeyError_witness :
  let assn := [(0, 0, 0, 0); (0, 0, 0, 0)] in
  let hp := Heap (__init__ assn [0] 1 1 1 1) [] ∅ in
  let outcome which :=
    _compute chunk_add chunk_max chunk_max assn [[Qc_of_Z 1]] 1 1 [0]
      1 which hp in
  outcome "mean" = (Raise (KeyError "mean"), hp) /\
  exists kernel rest,
    ("add" = "add" /\ kernel = chunk_add \/
     "add" = "max" /\ kernel = chunk_max \/
     "add" = "avg" /\ kernel = chunk_max) /\
    func_map chunk_add chunk_max chunk_max !! "add" = Some kernel /\
    (outcome "add").1
    = for_each (range (length assn / 1 + 1))
        (fun chunk_i user =>
           kernel (chunk_rows assn 1 chunk_i) [0] [[Qc_of_Z 1]] user)
        (zeros 0%Qc 1 1) /\
    reads (outcome "add").2 = reads hp ++ (0, 1) :: rest.
Proof.
  intros assn hp outcome. split.
  - apply (proj1 (unknown_policy_KeyError chunk_add chunk_max chunk_max
                    assn [[Qc_of_Z 1]] 1 1 [0] 1 "mean" hp)).
    unfold policy_tags. rewrite !not_elem_of_cons.
    repeat split; try done. apply not_elem_of_nil.
  - apply (proj2 (unknown_policy_KeyError chunk_add chunk_max chunk_max
                    assn [[Qc_of_Z 1]] 1 1 [0] 1 "add" hp)).
    + unfold policy_tags. apply list_elem_of_here.
    + lia.
Defined.

(** ** C2 *)

(** C2: a run of [_compute] that returns issues [M // chunksize + 1] reads,
    the ranges [chunksize * i, chunksize * (i + 1)) in order; when [M] is a
    multiple of the chunk size this is one more than [ceil(M / chunksize)],
    and the last read returns no row. *)
Theorem reads_issued (f_add f_max f_avg : chunk_fn) (assn : list row)
    (loading2d : matrix Qc) (n_frames n_atoms : nat) (solvent_ind : list nat)
    (chunksize : nat) (which : string) (hp : heap) :
  let outcome :=
    _compute f_add f_max f_avg assn loading2d n_frames n_atoms solvent_ind
      chunksize which hp in
  let n_chunks := length assn / chunksize + 1 in
  chunksize <> 0 ->
  is_ok outcome.1 = true ->
  reads outcome.2 = reads hp ++ map (chunk_range chunksize) (range n_chunks) /\
  (length assn `mod` chunksize = 0 ->
   chunk_rows assn chunksize (n_chunks - 1) = []).
Proof.
  intros outcome n_chunks Hcs Hok. split.
  - unfold outcome in *.
    destruct (func_map f_add f_max f_avg !! which) as [kernel|] eqn:Hk.
    + rewrite (compute_unfold _ _ _ kernel) in * by done. simpl in *.
      destruct (for_each _ _ _) as [user|e] eqn:Hr; [|done].
      rewrite (started_all _ _ _ _ Hr).
      rewrite firstn_all. reflexivity.
    + apply func_map_None in Hk.
      rewrite compute_KeyError in Hok by done. done.
  - intros Hmod. unfold chunk_rows, n_chunks.
    replace (length assn / chunksize + 1 - 1) with (length assn / chunksize)
      by lia.
    rewrite drop_ge; [by rewrite take_nil|].
    pose proof (Nat.div_mod (length assn) chunksize Hcs). lia.
Qed.

Lemma reads_issued_witness :
  let assn := [(0, 0, 0, 0); (0, 0, 0, 0)] in
  let hp := Heap (__init__ assn [0] 1 1 1 1) [] ∅ in
  reads (_compute chunk_add chunk_max chunk_max assn [[Qc_of_Z 5]] 1 1 [0] 1
           "add" hp).2
  = reads hp ++ map (chunk_range 1) (range (2 / 1 + 1)) /\
  (2 `mod` 1 = 0 -> chunk_rows assn 1 (2 / 1 + 1 - 1) = []).
Proof.
  intros assn hp.
  apply (reads_issued chunk_add chunk_max chunk_max assn [[Qc_of_Z 5]] 1 1 [0]
           1 "add" hp).
  - lia.
  - reflexivity.
Defined.

(** The reads of the run above: three ranges for two rows in chunks of
    one, where [ceil(2 / 1)] is two. *)
Example exact_multiple_extra_read :
  let assn := [(0, 0, 0, 0); (0, 0, 0, 0)] in
  reads (_compute chunk_add chunk_max chunk_max assn [[Qc_of_Z 5]] 1 1 [0] 1
           "add" (Heap (__init__ assn [0] 1 1 1 1) [] ∅)).2
  = [(0, 1); (1, 2); (2, 3)].
Proof. reflexivity. Qed.

(** ** C10 *)

(** C10: [compute] leaves the writer as it found it, whether it returns or
    raises: every attribute keeps its value, [to3d] and [to2d] among them,
    and no file is touched. *)
Theorem compute_preserves_writer (f_add f_max f_avg : chunk_fn)
    (loading : list Qc) (deleted : list nat) (hp : heap) :
  let hp' := (compute f_add f_max f_avg loading deleted hp).2 in
  writer hp' = writer hp /\
  to3d (writer hp') = to3d (writer hp) /\
  to2d (writer hp') = to2d (writer hp) /\
  files hp' = files hp.
Proof.
  intros hp'.
  assert (Hw : writer hp' = writer hp /\ files hp' = files hp).
  { unfold hp', compute, bind, get_self. rewrite translate_loading_expand.
    destruct (expand _ _ _ _) as [loading2d|e]; simpl; [|done].
    apply compute_frame. }
  destruct Hw as [Hw Hf]. rewrite Hw. done.
Qed.

(** ** [write_dat] *)

Section WriteDat.
Variables f_add f_max f_avg : chunk_fn.
Variable format_value : Qc -> string.
Variable VMDSCRIPT_format : string -> string -> nat -> string -> string.
Variable basename : string -> string.

Lemma dat_tcl_names (out_fn_base : string) :
  (out_fn_base +:+ ".dat")%string <> (out_fn_base +:+ ".tcl")%string.
Proof.
  intros Heq. apply (inj (String.app out_fn_base)) in Heq. discriminate Heq.
Qed.

(** The call [self.compute(data, features_to_select, stride)] hands three
    arguments to a method of two parameters: [write_dat] raises [TypeError]
    right after it has opened the data file. *)
Lemma write_dat_raises (data : list Qc) (features_to_select : list nat)
    (out_fn_base : string) (traj_fn top_fn : option string) (stride : nat)
    (hp : heap) :
  write_dat f_add f_max f_avg format_value VMDSCRIPT_format basename
    data features_to_select out_fn_base traj_fn top_fn stride hp
  = if decide (stride = 0) then (Raise ZeroDivisionError, hp)
    else (Raise TypeError,
          Heap (writer hp) (reads hp)
               (<[(out_fn_base +:+ ".dat")%string := EmptyString]> (files hp))).
Proof.
  unfold write_dat, bind, get_self, lift, floordiv, open_w, invoke,
    compute_params, raise.
  destruct (decide (stride = 0)); reflexivity.
Qed.
End WriteDat.

(** ** C8 *)

(** C8: for a stride other than zero, [write_dat] raises [TypeError] at its
    call of [compute]; the data file it has just opened is left with no
    line in it, whatever [n_frames // stride] is. *)
Theorem write_dat_no_line (f_add f_max f_avg : chunk_fn)
    (format_value : Qc -> string)
    (VMDSCRIPT_format : string -> string -> nat -> string -> string)
    (basename : string -> string)
    (data : list Qc) (features_to_select : list nat) (out_fn_base : string)
    (traj_fn top_fn : option string) (stride : nat) (hp : heap) :
  let out :=
    write_dat f_add f_max f_avg format_value VMDSCRIPT_format basename
      data features_to_select out_fn_base traj_fn top_fn stride hp in
  stride <> 0 ->
  out.1 = Raise TypeError /\
  exists text,
    files out.2 !! (out_fn_base +:+ ".dat")%string = Some text /\
    count_lines text = 0.
Proof.
  intros out Hs. unfold out. rewrite write_dat_raises.
  rewrite decide_False by done. simpl. split; [done|].
  exists EmptyString. rewrite lookup_insert_eq. done.
Qed.

Lemma write_dat_no_line_witness :
  let hp := Heap (__init__ [(0, 0, 0, 0)] [0] 2 1 1 1) [] ∅ in
  let out :=
    write_dat chunk_add chunk_max chunk_max (fun _ => "0.0") (fun _ _ _ _ => EmptyString)
      id [Qc_of_Z 1] [] "out" None None 1 hp in
  n_frames (writer hp) / 1 = 2 /\
  out.1 = Raise TypeError /\
  exists text,
    files out.2 !! ("out" +:+ ".dat")%string = Some text /\
    count_lines text = 0.
Proof.
  intros hp out. split; [reflexivity|].
  apply (write_dat_no_line chunk_add chunk_max chunk_max (fun _ => "0.0")
           (fun _ _ _ _ => EmptyString) id [Qc_of_Z 1] [] "out" None None 1 hp).
  lia.
Defined.

(** ** C9 *)

(** C9: [write_dat] never returns and never creates or changes the
    [.tcl] file, also when [traj_fn] and [top_fn] are both given. *)
Theorem write_dat_no_script (f_add f_max f_avg : chunk_fn)
    (format_value : Qc -> string)
    (VMDSCRIPT_format : string -> string -> nat -> string -> string)
    (basename : string -> string)
    (data : list Qc) (features_to_select : list nat) (out_fn_base : string)
    (traj_fn top_fn : option string) (stride : nat) (hp : heap) :
  let out :=
    write_dat f_add f_max f_avg format_value VMDSCRIPT_format basename
      data features_to_select out_fn_base traj_fn top_fn stride hp in
  is_ok out.1 = false /\
  files out.2 !! (out_fn_base +:+ ".tcl")%string
  = files hp !! (out_fn_base +:+ ".tcl")%string.
Proof.
  intros out. unfold out. rewrite write_dat_raises.
  destruct (decide (stride = 0)); simpl; [done|]. split; [done|].
  apply lookup_insert_ne, dat_tcl_names.
Qed.

(** With both file names given and no file at the start, the script is
    absent at the end. *)
Example write_dat_script_absent :
  let hp := Heap (__init__ [(0, 0, 0, 0)] [0] 2 1 1 1) [] ∅ in
  files (write_dat chunk_add chunk_max chunk_max (fun _ => "0.0")
           (fun top traj _ dat => (top +:+ traj +:+ dat)%string) id
           [Qc_of_Z 1] [] "out" (Some "traj.xtc") (Some "top.pdb") 1 hp).2
    !! "out.tcl"
  = None.
Proof. reflexivity. Qed.

(** ** The [avg] tag *)

Lemma field_1x1 (assn : list row) (solvent_ind : list nat)
    (loading2d user : matrix Qc) :
  is_avg_field assn solvent_ind loading2d 1 1 user ->
  user = [[mean (contributions assn solvent_ind loading2d 0 0)]].
Proof.
  intros [Hshape Hcell]. specialize (Hcell 0 0 ltac:(lia) ltac:(lia)).
  destruct user as [|[|x [|y r]] [|r' user]]; try discriminate Hshape.
  unfold get2d in Hcell. simpl in Hcell. congruence.
Qed.

Lemma for_each_map {A B S} (g : A -> B) (xs : list A)
    (body : B -> S -> result S) (s : S) :
  for_each (map g xs) body s = for_each xs (fun x => body (g x)) s.
Proof.
  revert s. induction xs as [|x xs IH]; intros s; simpl; [done|].
  destruct (body (g x) s); simpl; [apply IH | done].
Qed.

(** A step function that folds the chunk sequences below to the given
    states identifies [s72] and [s3]: the state after [AA] and after [A] is
    the same, and so is the state after [AA; B] and after [C]. *)
Lemma fold_collision {Ch St} (g : Ch -> St -> result St) (z s2 s3 s72 : St)
    (A AA B C E : Ch) :
  for_each [AA] g z = Ok s2 ->
  for_each [AA; B] g z = Ok s3 ->
  for_each [A] g z = Ok s2 ->
  for_each [A; B; E] g z = Ok s72 ->
  for_each [C] g z = Ok s3 ->
  for_each [C; E] g z = Ok s3 ->
  s72 = s3.
Proof.
  simpl. intros F1 F2 F3 F4 F5 F6.
  destruct (g AA z) as [x|] eqn:E1; simpl in *; [|discriminate F1].
  injection F1 as ->.
  destruct (g A z) as [x|] eqn:E3; simpl in *; [|discriminate F3].
  injection F3 as ->.
  destruct (g B s2) as [x|] eqn:E2; simpl in *; [|discriminate F2].
  injection F2 as ->.
  destruct (g C z) as [x|] eqn:E5; simpl in *; [|discriminate F5].
  injection F5 as ->.
  destruct (g E s3) as [x|] eqn:E6; simpl in *; [|discriminate F6].
  congruence.
Qed.

(** X15: [_compute] hands the kernel the output array and nothing else and
    returns that array as the loop leaves it; so with a kernel that is a
    function of its four arguments alone it cannot return the per-cell means
    of the table for every table and every chunk size. *)
Lemma avg_needs_counts : ~ exists f_avg : chunk_fn, avg_claim f_avg.
Proof.
  intros [f Hclaim].
  set (L := [[Qc_of_Z 2]; [Qc_of_Z 5]; [Qc_of_Z 3]] : matrix Qc).
  set (a := (0, 0, 0, 0) : row). set (b := (0, 0, 1, 0) : row).
  set (c := (0, 0, 2, 0) : row).
  assert (Hrun : forall (T : list row) (cs : nat) (v : Qc)
                        (chunks : list (list row)),
             1 <= cs ->
             Forall (fun r => r = a \/ r = b \/ r = c) T ->
             Qeq (Qcanon.this (mean (contributions T [0] L 0 0)))
                 (Qcanon.this v) ->
             map (chunk_rows T cs) (range (length T / cs + 1)) = chunks ->
             for_each chunks (fun ch u => f ch [0] L u) (zeros 0%Qc 1 1)
             = Ok [[v]]).
  { intros T cs v chunks Hcs Hsub Hv <-. apply Qc_is_canon in Hv.
    destruct (Hclaim f f T L 1 1 [0] cs (Heap (__init__ [] [] 0 0 0 0) [] ∅) Hcs)
      as (user & Hr & Hfield).
    - intros fr vent ute sh Hin. rewrite Forall_forall in Hsub.
      apply Hsub in Hin.
      destruct Hin as [Hin|[Hin|Hin]]; injection Hin as -> -> -> ->;
        (split; [lia|]; split; [exists 0; split; [reflexivity|lia]|]);
        eexists; reflexivity.
    - rewrite (compute_unfold f f f f) in Hr; [|reflexivity|lia].
      simpl in Hr. rewrite for_each_map, Hr.
      apply field_1x1 in Hfield. congruence. }
  assert (Hneq : [[Q2Qc (7 # 2)]] = [[Qc_of_Z 3]] -> False).
  { intros Heq. vm_compute in Heq. discriminate Heq. }
  apply Hneq.
  apply (fold_collision (fun ch u => f ch [0] L u) (zeros 0%Qc 1 1)
           [[Qc_of_Z 2]] [[Qc_of_Z 3]] [[Q2Qc (7 # 2)]]
           [a] [a; a] [b] [c] []).
  - apply (Hrun [a; a] 3); [lia|repeat constructor; auto| |]; reflexivity.
  - apply (Hrun [a; a; b] 2); [lia|repeat constructor; auto| |]; reflexivity.
  - apply (Hrun [a] 2); [lia|repeat constructor; auto| |]; reflexivity.
  - apply (Hrun [a; b] 1); [lia|repeat constructor; auto| |]; reflexivity.
  - apply (Hrun [c] 2); [lia|repeat constructor; auto| |]; reflexivity.
  - apply (Hrun [c] 1); [lia|repeat constructor; auto| |]; reflexivity.
Qed.

(** * Further properties *)

(** ** The chunks of [_compute] *)

Lemma chunk_rows_take (assn : list row) (chunksize chunk_i : nat) :
  chunk_rows assn chunksize chunk_i
  = take chunksize (drop (chunksize * chunk_i) assn).
Proof. unfold chunk_rows. f_equal. lia. Qed.

Lemma chunks_concat (assn : list row) (chunksize n : nat) :
  concat (map (chunk_rows assn chunksize) (range n))
  = take (chunksize * n) assn.
Proof.
  induction n as [|n IH].
  - replace (chunksize * 0) with 0 by lia. by rewrite take_0.
  - replace (S n) with (n + 1) by lia. unfold range in *.
    rewrite seq_app, map_app, concat_app, IH. simpl.
    rewrite app_nil_r, chunk_rows_take, take_take_drop. f_equal. lia.
Qed.

Lemma chunks_partition (assn : list row) (chunksize : nat) :
  chunksize <> 0 ->
  concat (map (chunk_rows assn chunksize)
            (range (length assn / chunksize + 1)))
  = assn.
Proof.
  intros Hcs. rewrite chunks_concat. apply take_ge.
  pose proof (Nat.div_mod (length assn) chunksize Hcs) as Hdm.
  pose proof (Nat.mod_upper_bound (length assn) chunksize Hcs). nia.
Qed.

(** X1: when [_compute] returns, the chunks that its reads of the table
    gave back, in the order of the reads, are the chunks it ran the kernel
    on, and put end to end they are the table: every row has reached the
    kernel once, in table order. *)
Theorem reads_cover_table (f_add f_max f_avg kernel : chunk_fn)
    (assn : list row) (loading2d : matrix Qc) (n_frames n_atoms : nat)
    (solvent_ind : list nat) (chunksize : nat) (which : string) (hp : heap) :
  let outcome :=
    _compute f_add f_max f_avg assn loading2d n_frames n_atoms solvent_ind
      chunksize which hp in
  func_map f_add f_max f_avg !! which = Some kernel ->
  chunksize <> 0 ->
  is_ok outcome.1 = true ->
  exists (ranges : list (nat * nat)) (chunks : list (list row)),
    reads outcome.2 = reads hp ++ ranges /\
    Forall2 (fun r c => forall h, (read assn r.1 r.2 h).1 = Ok c)
      ranges chunks /\
    outcome.1
    = for_each chunks (fun c user => kernel c solvent_ind loading2d user)
        (zeros 0%Qc n_frames n_atoms) /\
    concat chunks = assn.
Proof.
  intros outcome Hk Hcs Hok. unfold outcome in *.
  rewrite (compute_unfold _ _ _ kernel) in * by done. simpl in Hok.
  set (chunk_is := range (length assn / chunksize + 1)) in *.
  exists (map (chunk_range chunksize) chunk_is),
         (map (chunk_rows assn chunksize) chunk_is).
  split; [|split; [|split]].
  - simpl. destruct (for_each _ _ _) as [user|e] eqn:Hr; [|done].
    rewrite (started_all _ _ _ _ Hr), firstn_all. reflexivity.
  - clear Hok. induction chunk_is as [|i chunk_is IH]; simpl.
    + constructor.
    + constructor; [|apply IH]. intros h. reflexivity.
  - simpl. symmetry. apply for_each_map.
  - apply chunks_partition. done.
Qed.

Lemma reads_cover_table_witness :
  let assn := [(0, 0, 0, 0); (0, 1, 0, 0); (1, 0, 0, 0)] in
  let hp := Heap (__init__ assn [0; 1] 2 2 1 1) [] ∅ in
  let outcome :=
    _compute chunk_add chunk_max chunk_max assn [[Qc_of_Z 1]] 2 2 [0; 1] 2
      "add" hp in
  exists (ranges : list (nat * nat)) (chunks : list (list row)),
    reads outcome.2 = reads hp ++ ranges /\
    Forall2 (fun r c => forall h, (read assn r.1 r.2 h).1 = Ok c)
      ranges chunks /\
    outcome.1
    = for_each chunks (fun c user => chunk_add c [0; 1] [[Qc_of_Z 1]] user)
        (zeros 0%Qc 2 2) /\
    concat chunks = assn.
Proof.
  intros assn hp outcome.
  apply (reads_cover_table chunk_add chunk_max chunk_max chunk_add assn
           [[Qc_of_Z 1]] 2 2 [0; 1] 2 "add" hp).
  - reflexivity.
  - lia.
  - reflexivity.
Defined.

Lemma sequential_concat (kernel : chunk_fn) (chunks : list (list row))
    (solvent_ind : list nat) (loading2d user : matrix Qc) :
  sequential kernel ->
  for_each chunks (fun c u => kernel c solvent_ind loading2d u) user
  = kernel (concat chunks) solvent_ind loading2d user.
Proof.
  intros [Hnil Happ]. revert user.
  induction chunks as [|c chunks IH]; intros user; simpl.
  - by rewrite Hnil.
  - rewrite Happ. destruct (kernel c _ _ user) as [u|e]; simpl; [apply IH|done].
Qed.

Lemma chunk_add_sequential : sequential chunk_add.
Proof. split; [done|]. intros. unfold chunk_add. apply for_each_app. Qed.

Lemma chunk_max_sequential : sequential chunk_max.
Proof. split; [done|]. intros. unfold chunk_max. apply for_each_app. Qed.

(** X2: with a kernel that treats its chunk row after row, the array
    returned by [_compute] does not depend on the chunk size: it is what
    the kernel makes of the whole table in one call. *)
Theorem chunk_size_irrelevant (f_add f_max f_avg kernel : chunk_fn)
    (assn : list row) (loading2d : matrix Qc) (n_frames n_atoms : nat)
    (solvent_ind : list nat) (chunksize : nat) (which : string) (hp : heap) :
  sequential kernel ->
  func_map f_add f_max f_avg !! which = Some kernel ->
  chunksize <> 0 ->
  (_compute f_add f_max f_avg assn loading2d n_frames n_atoms solvent_ind
     chunksize which hp).1
  = kernel assn solvent_ind loading2d (zeros 0%Qc n_frames n_atoms).
Proof.
  intros Hseq Hk Hcs. rewrite (compute_unfold _ _ _ kernel) by done. simpl.
  rewrite <- (for_each_map (chunk_rows assn chunksize)
                (range (length assn / chunksize + 1))
                (fun c u => kernel c solvent_ind loading2d u)).
  rewrite sequential_concat by done. by rewrite chunks_partition.
Qed.

Lemma chunk_size_irrelevant_witness :
  let assn := [(0, 0, 0, 0); (0, 0, 0, 0); (1, 1, 1, 0)] in
  let loading2d := [[Qc_of_Z 5]; [Qc_of_Z 7]] in
  (_compute chunk_add chunk_max chunk_max assn loading2d 2 3 [2; 0] 2 "add"
     (Heap (__init__ assn [2; 0] 2 3 2 1) [] ∅)).1
  = chunk_add assn [2; 0] loading2d (zeros 0%Qc 2 3).
Proof.
  intros assn loading2d.
  apply (chunk_size_irrelevant chunk_add chunk_max chunk_max chunk_add).
  - apply chunk_add_sequential.
  - reflexivity.
  - lia.
Defined.

(** X3: [_compute] stops at the first chunk on which the kernel raises:
    the exception is passed on, the chunks up to that one have been read
    and no later one is. *)
Theorem fail_fast (f_add f_max f_avg kernel : chunk_fn) (assn : list row)
    (loading2d : matrix Qc) (n_frames n_atoms : nat) (solvent_ind : list nat)
    (chunksize : nat) (which : string) (hp : heap) (i : nat)
    (user : matrix Qc) (e : exn) :
  let step chunk_i user :=
    kernel (chunk_rows assn chunksize chunk_i) solvent_ind loading2d user in
  func_map f_add f_max f_avg !! which = Some kernel ->
  chunksize <> 0 ->
  i < length assn / chunksize + 1 ->
  for_each (range i) step (zeros 0%Qc n_frames n_atoms) = Ok user ->
  step i user = Raise e ->
  _compute f_add f_max f_avg assn loading2d n_frames n_atoms solvent_ind
    chunksize which hp
  = (Raise e,
     Heap (writer hp)
          (reads hp ++ map (chunk_range chunksize) (range (i + 1)))
          (files hp)).
Proof.
  intros step Hk Hcs Hi Hpre Hfail.
  rewrite (compute_unfold _ _ _ kernel) by done. fold step.
  set (n := length assn / chunksize + 1) in *.
  assert (Hsplit : range n = range i ++ i :: seq (i + 1) (n - (i + 1))).
  { unfold range. replace n with (i + (1 + (n - (i + 1)))) at 1 by lia.
    rewrite seq_app, seq_app. simpl. reflexivity. }
  assert (Hstarted : forall xs ys (s s' : matrix Qc),
             for_each xs step s = Ok s' ->
             started (xs ++ ys) step s = length xs + started ys step s').
  { induction xs as [|x xs IH]; intros ys s s'; simpl.
    - by intros [= ->].
    - destruct (step x s) as [s1|]; simpl; [|done].
      intros Hr. by rewrite (IH _ _ _ Hr). }
  rewrite Hsplit, for_each_app, Hpre. simpl. rewrite Hfail. simpl.
  rewrite (Hstarted _ _ _ _ Hpre). simpl. rewrite Hfail.
  unfold range. rewrite length_seq. do 3 f_equal.
  rewrite (take_app_add' (seq 0 i)) by (by rewrite length_seq).
  rewrite seq_app. reflexivity.
Qed.

Lemma fail_fast_witness :
  let assn := [(0, 0, 0, 0); (5, 0, 0, 0)] in
  let hp := Heap (__init__ assn [0] 1 1 1 1) [] ∅ in
  _compute chunk_add chunk_max chunk_max assn [[Qc_of_Z 1]] 1 1 [0] 1 "add" hp
  = (Raise IndexOutOfRange,
     Heap (writer hp) (reads hp ++ map (chunk_range 1) (range (1 + 1)))
          (files hp)).
Proof.
  intros assn hp.
  eapply (fail_fast chunk_add chunk_max chunk_max chunk_add assn
            [[Qc_of_Z 1]] 1 1 [0] 1 "add" hp 1).
  - reflexivity.
  - lia.
  - simpl. lia.
  - reflexivity.
  - reflexivity.
Defined.

(** ** The dictionaries of [set_up_translation] *)

Lemma tr_fold_dom (deleted : list nat) (ps : list (nat * nat)) :
  dom (tr_to2d (foldl (fun s p => tr_body deleted p.1 p.2 s) tr_init ps))
  = list_to_set ps.
Proof.
  induction ps as [|[u h] ps IH] using rev_ind; simpl.
  - apply dom_empty_L.
  - rewrite foldl_app, list_to_set_snoc_L. simpl.
    set (st := foldl (fun s p => tr_body deleted p.1 p.2 s) tr_init ps) in *.
    unfold tr_body.
    destruct (negb _); simpl; rewrite dom_insert_L, IH; apply (comm_L (∪)).
Qed.

Lemma tr_loop_facts (n m : nat) (deleted : list nat) :
  let st := tr_loop n m deleted in
  (forall s h, s < n -> h < m ->
     tr_to2d st !! (s, h)
     = Some (if in1d (s * m + h) deleted then (-1)%Z
             else Z.of_nat (rank deleted (s * m + h)))) /\
  (forall s h, is_Some (tr_to2d st !! (s, h)) <-> s < n /\ h < m) /\
  (forall k s h, tr_to3d st !! k = Some (s, h) <->
     s < n /\ h < m /\ in1d (s * m + h) deleted = false /\
     rank deleted (s * m + h) = k).
Proof.
  intros st. unfold st. rewrite tr_loop_pairs.
  destruct (tr_fold_inv deleted _ (NoDup_pairs n m)) as (_ & _ & H2 & H3 & H4).
  rewrite length_pairs in H4. split; [|split].
  - intros s h Hs Hh. apply (H2 (s * m + h)), pairs_lookup. done.
  - intros s h. rewrite <- elem_of_dom, tr_fold_dom, elem_of_list_to_set.
    rewrite list_elem_of_lookup. split.
    + intros [i Hi]. apply pairs_lookup in Hi. tauto.
    + intros [Hs Hh]. exists (s * m + h). apply pairs_lookup. done.
  - intros k s h. split.
    + intros Hk.
      destruct (decide (k < rank deleted (n * m))) as [Hlt|Hge];
        [|rewrite H4 in Hk by lia; discriminate].
      destruct (rank_surj _ _ _ Hlt) as (i & Hi & Hd & Hr).
      destruct (lookup_lt_is_Some_2 (pairs n m) i) as [[s' h'] Hp];
        [by rewrite length_pairs|].
      pose proof (H3 _ _ Hp Hd) as Hk'. rewrite Hr, Hk in Hk'.
      injection Hk' as <- <-. apply pairs_lookup in Hp as (Hs & Hh & ->).
      done.
    + intros (Hs & Hh & Hd & <-). apply H3; [|done].
      apply pairs_lookup. done.
Qed.

Lemma set_up_translation_unfold (deleted : list nat) (hp : heap) :
  let st := tr_loop (n_solute (writer hp)) (n_shells (writer hp)) deleted in
  set_up_translation deleted hp
  = (Ok (tr_to3d st, tr_to2d st),
     Heap {| assn := assn (writer hp); solvent_ind := solvent_ind (writer hp);
             to3d := Some (tr_to3d st); to2d := Some (tr_to2d st);
             n_frames := n_frames (writer hp);
             n_solute := n_solute (writer hp);
             n_shells := n_shells (writer hp);
             n_atoms := n_atoms (writer hp); which := which (writer hp) |}
          (reads hp) (files hp)).
Proof. reflexivity. Qed.

(** X4: every entry of [to3d] is a pair of the dimensions whose absolute
    index was not pruned, and [to2d] sends that pair back to the key: the
    dictionaries are inverse to each other from the side of [to3d] too. *)
Theorem to3d_entries (deleted : list nat) (hp : heap) (k s h : nat) :
  let ns := n_solute (writer hp) in
  let nh := n_shells (writer hp) in
  let t3 := tr_to3d (tr_loop ns nh deleted) in
  let t2 := tr_to2d (tr_loop ns nh deleted) in
  (set_up_translation deleted hp).1 = Ok (t3, t2) /\
  (t3 !! k = Some (s, h) ->
   s < ns /\ h < nh /\ (s * nh + h ∉ deleted) /\
   t2 !! (s, h) = Some (Z.of_nat k)).
Proof.
  intros ns nh t3 t2. split; [reflexivity|]. intros Hk.
  destruct (tr_loop_facts ns nh deleted) as (H2 & _ & H3).
  apply H3 in Hk as (Hs & Hh & Hd & <-).
  split; [done|]. split; [done|]. split.
  - unfold in1d in Hd. by apply bool_decide_eq_false_1 in Hd.
  - rewrite H2, Hd by done. done.
Qed.

Lemma to3d_entries_witness :
  let hp := Heap (__init__ [] [] 0 0 2 2) [] ∅ in
  1 < 2 /\ 0 < 2 /\ (1 * 2 + 0 ∉ [1]) /\
  tr_to2d (tr_loop 2 2 [1]) !! (1, 0) = Some (Z.of_nat 1).
Proof.
  intros hp.
  apply (proj2 (to3d_entries [1] hp 1 1 0)). reflexivity.
Defined.

(** X5: [to2d] has an entry for every pair of the dimensions and for no
    other pair, and an entry is either the sentinel [-1] or a pruned index
    below the kept count. *)
Theorem to2d_entries (deleted : list nat) (hp : heap) (s h : nat) :
  let ns := n_solute (writer hp) in
  let nh := n_shells (writer hp) in
  let t2 := tr_to2d (tr_loop ns nh deleted) in
  to2d (writer (set_up_translation deleted hp).2) = Some t2 /\
  (is_Some (t2 !! (s, h)) <-> s < ns /\ h < nh) /\
  (forall z, t2 !! (s, h) = Some z ->
     z = (-1)%Z \/ (0 <= z < Z.of_nat (kept_count ns nh deleted))%Z).
Proof.
  intros ns nh t2. split; [reflexivity|].
  destruct (tr_loop_facts ns nh deleted) as (H2 & Hdom & _).
  split; [apply Hdom|]. intros z Hz.
  assert (Hin : s < ns /\ h < nh) by (apply Hdom; by eexists).
  destruct Hin as [Hs Hh]. unfold t2 in Hz. rewrite H2 in Hz by done.
  injection Hz as <-. destruct (in1d (s * nh + h) deleted) eqn:Hd; [by left|].
  right. rewrite kept_count_rank.
  assert (s * nh + h < ns * nh) as Hlt by nia.
  pose proof (rank_lt deleted _ _ Hlt Hd). lia.
Qed.

Lemma to2d_entries_witness :
  (-1)%Z = (-1)%Z \/ (0 <= -1 < Z.of_nat (kept_count 2 2 [1%nat]))%Z.
Proof.
  apply (proj2 (proj2 (to2d_entries [1] (Heap (__init__ [] [] 0 0 2 2) [] ∅)
                         0 1)) (-1)%Z).
  reflexivity.
Defined.

(** X6: the pruned indices follow the row-major order of the pairs: of two
    keys of [to3d], the smaller one belongs to the pair with the smaller
    absolute index. *)
Theorem to3d_row_major (n_solute n_shells : nat) (deleted : list nat)
    (k k' s h s' h' : nat) :
  let t3 := tr_to3d (tr_loop n_solute n_shells deleted) in
  t3 !! k = Some (s, h) -> t3 !! k' = Some (s', h') -> k < k' ->
  s * n_shells + h < s' * n_shells + h'.
Proof.
  intros t3 Hk Hk' Hlt.
  destruct (tr_loop_facts n_solute n_shells deleted) as (_ & _ & H3).
  apply H3 in Hk as (_ & _ & _ & <-). apply H3 in Hk' as (_ & _ & _ & <-).
  destruct (decide (s * n_shells + h < s' * n_shells + h')); [done|].
  pose proof (rank_mono deleted (s' * n_shells + h') (s * n_shells + h)
                ltac:(lia)). lia.
Qed.

Lemma to3d_row_major_witness : 0 * 2 + 0 < 1 * 2 + 1.
Proof.
  apply (to3d_row_major 2 2 [1] 0 2 0 0 1 1); [reflexivity|reflexivity|lia].
Defined.

(** ** [translate_loading] and the dictionaries *)

(** X7: [translate_loading] fills the matrix as the dictionaries of
    [set_up_translation] for the same [deleted] say: the cell of a pair
    whose [to2d] entry is the sentinel holds [0], the cell of any other pair
    holds [loading[to2d[(s, h)]]]; and reading the matrix back through
    [to3d] gives [loading[k]] for every pruned index [k] below the kept
    count. *)
Theorem translate_loading_agrees (hp : heap) (loading : list Qc)
    (deleted : list nat) :
  let ns := n_solute (writer hp) in
  let nh := n_shells (writer hp) in
  let t3 := tr_to3d (tr_loop ns nh deleted) in
  let t2 := tr_to2d (tr_loop ns nh deleted) in
  kept_count ns nh deleted <= length loading ->
  exists m, translate_loading loading deleted hp = (Ok m, hp) /\
    (forall s h, s < ns -> h < nh ->
       exists z, t2 !! (s, h) = Some z /\
         get2d m s h
         = if decide (z = (-1)%Z) then Some 0%Qc else loading !! Z.to_nat z) /\
    (forall k, k < kept_count ns nh deleted ->
       exists s h, t3 !! k = Some (s, h) /\ get2d m s h = loading !! k).
Proof.
  intros ns nh t3 t2 Hlen. rewrite translate_loading_expand. fold ns nh.
  unfold expand.
  pose proof (tl_loop_spec 0%Qc ns nh loading deleted) as Hspec.
  rewrite decide_True in Hspec by done.
  destruct Hspec as (st & -> & Hcells). simpl. eexists. split; [done|].
  destruct (tr_loop_facts ns nh deleted) as (H2 & _ & H3). split.
  - intros s h Hs Hh. eexists. split; [by apply H2|].
    rewrite Hcells by done.
    destruct (in1d (s * nh + h) deleted); [done|].
    rewrite decide_False by lia. by rewrite Nat2Z.id.
  - intros k Hk. rewrite kept_count_rank in Hk.
    destruct (rank_surj _ _ _ Hk) as (i & Hi & Hd & Hr).
    destruct (lookup_lt_is_Some_2 (pairs ns nh) i) as [[s h] Hp];
      [by rewrite length_pairs|].
    apply pairs_lookup in Hp as (Hs & Hh & ->).
    exists s, h. split; [by apply H3|].
    rewrite Hcells, Hd, Hr by done. done.
Qed.

Lemma translate_loading_agrees_witness :
  let hp := Heap (__init__ [] [] 0 0 2 2) [] ∅ in
  let loading := [Qc_of_Z 1; Qc_of_Z 2; Qc_of_Z 3] in
  exists m, translate_loading loading [1] hp = (Ok m, hp) /\
    (forall s h, s < 2 -> h < 2 ->
       exists z, tr_to2d (tr_loop 2 2 [1]) !! (s, h) = Some z /\
         get2d m s h
         = if decide (z = (-1)%Z) then Some 0%Qc else loading !! Z.to_nat z) /\
    (forall k, k < kept_count 2 2 [1] ->
       exists s h, tr_to3d (tr_loop 2 2 [1]) !! k = Some (s, h) /\
                   get2d m s h = loading !! k).
Proof.
  intros hp loading. apply (translate_loading_agrees hp loading [1]).
  vm_compute. lia.
Defined.

(** ** What [deleted] is used for *)

Lemma tr_fold_ext (d d' : list nat) (ps : list (nat * nat)) :
  NoDup ps ->
  (forall i, i < length ps -> in1d i d = in1d i d') ->
  foldl (fun s p => tr_body d p.1 p.2 s) tr_init ps
  = foldl (fun s p => tr_body d' p.1 p.2 s) tr_init ps.
Proof.
  induction ps as [|q ps IH] using rev_ind; intros Hnd Hagree; [done|].
  apply NoDup_app in Hnd as (Hnd & _ & _).
  rewrite length_app in Hagree. simpl in Hagree.
  rewrite !foldl_app, <- IH by (try done; intros; apply Hagree; lia).
  destruct (tr_fold_inv d ps Hnd) as (Ha & _).
  set (st := foldl (fun s p => tr_body d p.1 p.2 s) tr_init ps) in *.
  simpl. unfold tr_body. rewrite Ha, (Hagree (length ps)) by lia. done.
Qed.

Lemma tl_fold_absi {A} (zero : A) (loading : list A) (deleted : list nat)
    (ps : list (nat * nat)) (st st' : tl_state A) :
  for_each ps (fun p => tl_body zero loading deleted p.1 p.2) st = Ok st' ->
  tl_absi st' = tl_absi st + length ps.
Proof.
  revert st. induction ps as [|[u h] ps IH]; intros st; simpl.
  - intros [= ->]. lia.
  - unfold tl_body at 1.
    destruct (negb (in1d (tl_absi st) deleted));
      [destruct (loading !! tl_pruni st); [|done]|];
      simpl; intros Hr; rewrite (IH _ Hr); simpl; lia.
Qed.

Lemma tl_fold_ext {A} (zero : A) (loading : list A) (d d' : list nat)
    (ps : list (nat * nat)) (m0 : matrix A) :
  (forall i, i < length ps -> in1d i d = in1d i d') ->
  for_each ps (fun p => tl_body zero loading d p.1 p.2) (TlState m0 0 0)
  = for_each ps (fun p => tl_body zero loading d' p.1 p.2) (TlState m0 0 0).
Proof.
  induction ps as [|q ps IH] using rev_ind; intros Hagree; [done|].
  rewrite length_app in Hagree. simpl in Hagree.
  rewrite !for_each_app, <- IH by (intros; apply Hagree; lia).
  destruct (for_each ps _ _) as [st|e] eqn:Hst; simpl; [|done].
  apply tl_fold_absi in Hst. simpl in Hst. unfold tl_body.
  rewrite Hst, (Hagree (length ps)) by lia. done.
Qed.

(** X8: [deleted] is only asked which absolute indices below
    [n_solute * n_shells] it holds: two arrays that agree on that, whatever
    their order, their repetitions and their entries beyond the range, give
    the same dictionaries and the same expanded matrix. *)
Theorem deleted_as_set (hp : heap) (loading : list Qc) (d d' : list nat) :
  (forall i, i < n_solute (writer hp) * n_shells (writer hp) ->
     (i ∈ d <-> i ∈ d')) ->
  set_up_translation d hp = set_up_translation d' hp /\
  translate_loading loading d hp = translate_loading loading d' hp.
Proof.
  intros Hagree.
  set (ns := n_solute (writer hp)) in *. set (nh := n_shells (writer hp)) in *.
  assert (Hin : forall i, i < length (pairs ns nh) -> in1d i d = in1d i d').
  { intros i Hi. rewrite length_pairs in Hi. unfold in1d.
    apply bool_decide_ext, Hagree. done. }
  split.
  - rewrite !set_up_translation_unfold. fold ns nh.
    rewrite !tr_loop_pairs.
    rewrite (tr_fold_ext d d' _ (NoDup_pairs ns nh) Hin). done.
  - rewrite !translate_loading_expand. fold ns nh. unfold expand, tl_loop.
    rewrite !(for_each_pairs ns nh (fun u h => tl_body 0%Qc loading _ u h)).
    rewrite (tl_fold_ext 0%Qc loading d d' _ _ Hin). done.
Qed.

Lemma deleted_as_set_witness :
  let hp := Heap (__init__ [] [] 0 0 2 2) [] ∅ in
  let loading := [Qc_of_Z 1; Qc_of_Z 2] in
  set_up_translation [3; 1; 3; 9] hp = set_up_translation [1; 3] hp /\
  translate_loading loading [3; 1; 3; 9] hp = translate_loading loading [1; 3] hp.
Proof.
  intros hp loading. apply (deleted_as_set hp loading [3; 1; 3; 9] [1; 3]).
  simpl. intros i Hi. rewrite !elem_of_cons, !elem_of_nil. lia.
Defined.

(** ** The two ends of pruning *)

Lemma rank_none_deleted (deleted : list nat) (n : nat) :
  (forall i, i < n -> i ∉ deleted) -> rank deleted n = n.
Proof.
  induction n as [|n IH]; intros Hnone; [done|].
  replace (S n) with (n + 1) by lia. rewrite rank_S, IH by (intros; apply Hnone; lia).
  unfold in1d. rewrite bool_decide_eq_false_2 by (apply Hnone; lia). done.
Qed.

Lemma rank_all_deleted (deleted : list nat) (n : nat) :
  (forall i, i < n -> i ∈ deleted) -> rank deleted n = 0.
Proof.
  induction n as [|n IH]; intros Hall; [done|].
  replace (S n) with (n + 1) by lia. rewrite rank_S, IH by (intros; apply Hall; lia).
  unfold in1d. rewrite bool_decide_eq_true_2 by (apply Hall; lia). done.
Qed.

Lemma matrix_const {A} (z : A) (r c : nat) (m : matrix A) :
  map length m = replicate r c ->
  (forall i j, i < r -> j < c -> get2d m i j = Some z) ->
  m = zeros z r c.
Proof.
  intros Hshape Hcells.
  assert (Hlen : length m = r).
  { apply (f_equal length) in Hshape.
    by rewrite length_map, length_replicate in Hshape. }
  apply list_eq. intros i. unfold zeros.
  destruct (decide (i < r)) as [Hi|Hi].
  - rewrite lookup_replicate_2 by done.
    destruct (lookup_lt_is_Some_2 m i) as [row Hrow]; [lia|].
    rewrite Hrow. f_equal.
    assert (Hrl : length row = c).
    { apply (f_equal (fun l => l !! i)) in Hshape.
      rewrite list_lookup_fmap, Hrow, lookup_replicate_2 in Hshape by done.
      by injection Hshape. }
    apply list_eq. intros j. destruct (decide (j < c)) as [Hj|Hj].
    + rewrite lookup_replicate_2 by done. specialize (Hcells i j Hi Hj).
      unfold get2d in Hcells. by rewrite Hrow in Hcells.
    + rewrite !lookup_ge_None_2; [done| |]; rewrite ?length_replicate; lia.
  - rewrite !lookup_ge_None_2; [done| |]; rewrite ?length_replicate; lia.
Qed.

(** X9: with no absolute index of the dimensions pruned,
    [translate_loading] is the row-major reshape of the first
    [n_solute * n_shells] entries of [loading]. *)
Theorem no_pruning_reshape (hp : heap) (loading : list Qc)
    (deleted : list nat) :
  let ns := n_solute (writer hp) in
  let nh := n_shells (writer hp) in
  (forall i, i < ns * nh -> i ∉ deleted) ->
  ns * nh <= length loading ->
  exists m, translate_loading loading deleted hp = (Ok m, hp) /\
    forall s h, s < ns -> h < nh -> get2d m s h = loading !! (s * nh + h).
Proof.
  intros ns nh Hnone Hlen. rewrite translate_loading_expand. fold ns nh.
  unfold expand.
  pose proof (tl_loop_spec 0%Qc ns nh loading deleted) as Hspec.
  rewrite decide_True in Hspec
    by (rewrite kept_count_rank, rank_none_deleted; done).
  destruct Hspec as (st & -> & Hcells). simpl. eexists. split; [done|].
  intros s h Hs Hh. rewrite Hcells by done.
  assert (s * nh + h < ns * nh) as Hlt by nia.
  unfold in1d. rewrite bool_decide_eq_false_2 by (by apply Hnone).
  rewrite rank_none_deleted; [done|]. intros i Hi. apply Hnone. lia.
Qed.

Lemma no_pruning_reshape_witness :
  let hp := Heap (__init__ [] [] 0 0 2 2) [] ∅ in
  let loading := [Qc_of_Z 1; Qc_of_Z 2; Qc_of_Z 3; Qc_of_Z 4] in
  exists m, translate_loading loading [] hp = (Ok m, hp) /\
    forall s h, s < 2 -> h < 2 -> get2d m s h = loading !! (s * 2 + h).
Proof.
  intros hp loading. apply (no_pruning_reshape hp loading []).
  - intros i _. apply not_elem_of_nil.
  - simpl. lia.
Defined.

(** X10: with every absolute index of the dimensions pruned,
    [translate_loading] returns the all-zero matrix whatever [loading] is,
    the empty vector included, and never raises. *)
Theorem all_pruned_zeros (hp : heap) (loading : list Qc) (deleted : list nat) :
  let ns := n_solute (writer hp) in
  let nh := n_shells (writer hp) in
  (forall i, i < ns * nh -> i ∈ deleted) ->
  translate_loading loading deleted hp = (Ok (zeros 0%Qc ns nh), hp).
Proof.
  intros ns nh Hall. rewrite translate_loading_expand. fold ns nh.
  unfold expand.
  pose proof (tl_loop_spec 0%Qc ns nh loading deleted) as Hspec.
  rewrite decide_True in Hspec
    by (rewrite kept_count_rank, rank_all_deleted; [lia|done]).
  destruct Hspec as (st & Hst & Hcells). rewrite Hst. simpl. do 2 f_equal.
  apply matrix_const.
  - unfold tl_loop in Hst.
    rewrite (for_each_pairs ns nh (fun u h => tl_body 0%Qc loading deleted u h))
      in Hst.
    apply tl_fold_shape in Hst. rewrite Hst. simpl. apply zeros_shape.
  - intros s h Hs Hh. rewrite Hcells by done.
    assert (s * nh + h < ns * nh) as Hlt by nia.
    unfold in1d. by rewrite bool_decide_eq_true_2 by (by apply Hall).
Qed.

Lemma all_pruned_zeros_witness :
  let hp := Heap (__init__ [] [] 0 0 1 2) [] ∅ in
  translate_loading [] [1; 0] hp = (Ok (zeros 0%Qc 1 2), hp).
Proof.
  intros hp. apply (all_pruned_zeros hp [] [1; 0]).
  simpl. intros i Hi. rewrite !elem_of_cons. lia.
Defined.

(** ** [compute] and the rest of the writer *)

Lemma default_chunksize_nonzero : default_chunksize <> 0.
Proof. unfold default_chunksize. lia. Qed.

(** X11: [compute] does not look at [to3d] and [to2d]: run after
    [set_up_translation], for any array of pruned indices, it returns what
    it returns without it and issues the same reads, and the dictionaries
    that [set_up_translation] stored are still there afterwards. *)
Theorem compute_ignores_dictionaries (f_add f_max f_avg : chunk_fn)
    (loading : list Qc) (deleted deleted' : list nat) (hp : heap) :
  let hp1 := (set_up_translation deleted' hp).2 in
  let direct := compute f_add f_max f_avg loading deleted hp in
  let after := compute f_add f_max f_avg loading deleted hp1 in
  after.1 = direct.1 /\
  reads after.2 = reads direct.2 /\
  to3d (writer after.2) = to3d (writer hp1) /\
  to2d (writer after.2) = to2d (writer hp1).
Proof.
  intros hp1 direct after.
  assert (Hfr : writer after.2 = writer hp1).
  { unfold after, compute, bind, get_self. rewrite translate_loading_expand.
    destruct (expand _ _ _ _); simpl; [|done]. apply compute_frame. }
  rewrite Hfr. split; [|split; [|done]].
  - unfold after, direct, compute, bind, get_self.
    rewrite !translate_loading_expand. simpl.
    destruct (expand _ _ _ _) as [l2d|e]; simpl; [|done].
    destruct (func_map f_add f_max f_avg !! which (writer hp)) as [k|] eqn:Hk.
    + rewrite !(compute_unfold _ _ _ k)
        by (try done; apply default_chunksize_nonzero).
      done.
    + unfold _compute. rewrite Hk. done.
  - unfold after, direct, compute, bind, get_self.
    rewrite !translate_loading_expand. simpl.
    destruct (expand _ _ _ _) as [l2d|e]; simpl; [|done].
    destruct (func_map f_add f_max f_avg !! which (writer hp)) as [k|] eqn:Hk.
    + rewrite !(compute_unfold _ _ _ k)
        by (try done; apply default_chunksize_nonzero).
      done.
    + unfold _compute. rewrite Hk. done.
Qed.

(** X12: a writer as [__init__] builds it aggregates with the [add]
    kernel: what [compute] returns and reads for it is what [_compute] does
    under the tag [add] on the expanded loading, and the two other kernels
    have no say in it. *)
Theorem fresh_writer_adds (f_add f_max f_avg g_max g_avg : chunk_fn)
    (table : list row) (atoms : list nat) (nf na ns nh : nat)
    (loading : list Qc) (deleted : list nat)
    (rd : list (nat * nat)) (fs : gmap string string) :
  let hp := Heap (__init__ table atoms nf na ns nh) rd fs in
  compute f_add f_max f_avg loading deleted hp
  = compute f_add g_max g_avg loading deleted hp /\
  compute f_add f_max f_avg loading deleted hp
  = match expand ns nh loading deleted with
    | Ok loading2d =>
        _compute f_add f_max f_avg table loading2d nf na atoms
          default_chunksize "add" hp
    | Raise e => (Raise e, hp)
    end.
Proof.
  intros hp. unfold compute, bind, get_self.
  rewrite translate_loading_expand.
  change (n_solute (writer hp)) with ns.
  change (n_shells (writer hp)) with nh.
  destruct (expand ns nh loading deleted) as [l2d|e]; cbn [fst snd]; [|done].
  change (which (writer hp)) with "add".
  change (assn (writer hp)) with table.
  change (solvent_ind (writer hp)) with atoms.
  change (n_frames (writer hp)) with nf.
  change (n_atoms (writer hp)) with na.
  split; [|done].
  rewrite !(compute_unfold _ _ _ f_add)
    by (try reflexivity; apply default_chunksize_nonzero).
  done.
Qed.

(** X13: an empty table is still read once: [_compute] asks for the range
    [0, chunksize), gets no row, and returns what the kernel makes of the
    empty chunk and the zero array. *)
Theorem empty_table_one_read (f_add f_max f_avg kernel : chunk_fn)
    (loading2d : matrix Qc) (n_frames n_atoms : nat) (solvent_ind : list nat)
    (chunksize : nat) (which : string) (hp : heap) :
  func_map f_add f_max f_avg !! which = Some kernel ->
  chunksize <> 0 ->
  _compute f_add f_max f_avg [] loading2d n_frames n_atoms solvent_ind
    chunksize which hp
  = (kernel [] solvent_ind loading2d (zeros 0%Qc n_frames n_atoms),
     Heap (writer hp) (reads hp ++ [(0, chunksize)]) (files hp)).
Proof.
  intros Hk Hcs. rewrite (compute_unfold _ _ _ kernel) by done.
  change (length (@nil row)) with 0.
  replace (0 / chunksize) with 0 by (symmetry; apply Nat.Div0.div_0_l).
  change (range (0 + 1)) with [0]. cbn [for_each started].
  unfold chunk_rows. rewrite drop_nil, take_nil.
  destruct (kernel [] solvent_ind loading2d _); simpl;
    unfold chunk_range; rewrite Nat.mul_0_r, Nat.mul_1_r; reflexivity.
Qed.

Lemma empty_table_one_read_witness :
  let hp := Heap (__init__ [] [0] 1 2 1 1) [] ∅ in
  _compute chunk_add chunk_max chunk_max [] [[Qc_of_Z 1]] 1 2 [0] 4 "max" hp
  = (chunk_max [] [0] [[Qc_of_Z 1]] (zeros 0%Qc 1 2),
     Heap (writer hp) (reads hp ++ [(0, 4)]) (files hp)).
Proof.
  intros hp.
  apply (empty_table_one_read chunk_add chunk_max chunk_max chunk_max);
    [reflexivity|lia].
Defined.

(** ** What [write_dat] leaves behind *)

(** X14: [write_dat] never reads the assignment table and never changes
    the writer.  With a stride of zero it raises [ZeroDivisionError] before
    it touches any file; with any other stride the one file it changes is
    the data file, which it leaves empty, whatever was in it before. *)
Theorem write_dat_effects (f_add f_max f_avg : chunk_fn)
    (format_value : Qc -> string)
    (VMDSCRIPT_format : string -> string -> nat -> string -> string)
    (basename : string -> string)
    (data : list Qc) (features_to_select : list nat) (out_fn_base : string)
    (traj_fn top_fn : option string) (stride : nat) (hp : heap) :
  let out :=
    write_dat f_add f_max f_avg format_value VMDSCRIPT_format basename
      data features_to_select out_fn_base traj_fn top_fn stride hp in
  let dat_out_fn := (out_fn_base +:+ ".dat")%string in
  writer out.2 = writer hp /\
  reads out.2 = reads hp /\
  (stride = 0 -> out = (Raise ZeroDivisionError, hp)) /\
  (stride <> 0 ->
   files out.2 !! dat_out_fn = Some EmptyString /\
   forall fn, fn <> dat_out_fn -> files out.2 !! fn = files hp !! fn).
Proof.
  intros out dat_out_fn. unfold out. rewrite write_dat_raises.
  destruct (decide (stride = 0)) as [Hz|Hnz]; simpl.
  - repeat split; try done.
  - repeat split; try done.
    + apply lookup_insert_eq.
    + intros fn Hfn. apply lookup_insert_ne. done.
Qed.

Lemma write_dat_effects_witness :
  let hp :=
    Heap (__init__ [(0, 0, 0, 0)] [0] 2 1 1 1) []
         (<["out.dat" := "old"]> (<["notes.txt" := "kept"]> ∅)) in
  let out :=
    write_dat chunk_add chunk_max chunk_max (fun _ => "0.0")
      (fun _ _ _ _ => EmptyString) id [Qc_of_Z 1] [] "out" None None 1 hp in
  files out.2 !! ("out" +:+ ".dat")%string = Some EmptyString /\
  forall fn, fn <> ("out" +:+ ".dat")%string ->
    files out.2 !! fn = files hp !! fn.
Proof.
  intros hp out.
  apply (write_dat_effects chunk_add chunk_max chunk_max (fun _ => "0.0")
           (fun _ _ _ _ => EmptyString) id [Qc_of_Z 1] [] "out" None None 1 hp).
  lia.
Defined.
